(** * pdfcpu, package [read]: the object parser of [read/parse.go]

    A shallow embedding of the parsers of [parse.go] and of the
    cross-reference-stream decoder, followed by the properties that the
    specification states about them.

    Conventions of the embedding.
    - A Go [string] is a sequence of bytes: Rocq's [string] of [ascii].
    - Every parser of [parse.go] takes [line *string].  The embedding passes
      the pointed-to buffer in and returns, next to the result, the buffer
      that the pointer holds when the call returns.  A local copy [l := *line]
      is an ordinary value; an assignment [*line = x] shows as the second
      component of the returned pair.
    - [parseObject], [parseArray] and [parseDict] are mutually recursive and
      the loops of the last two are not bounded by the source; they take a
      [fuel] argument and answer [None] when it runs out.
    - Go's [int] is taken as 64 bits wide; additions on it wrap. *)

From Stdlib Require Import ZArith Lia List Bool Ascii String.
Import ListNotations.

Local Open Scope string_scope.
Local Open Scope Z_scope.

(** ** Go values *)

Module GoInt.

Definition bits : Z := 64.
Definition minInt : Z := - 2 ^ (bits - 1).
Definition maxInt : Z := 2 ^ (bits - 1) - 1.

Definition inRange (z : Z) : bool := (minInt <=? z) && (z <=? maxInt).

(** Two's-complement wrap-around of an [int] result. *)
Definition wrap (z : Z) : Z := (z - minInt) mod 2 ^ bits + minInt.

Definition add (a b : Z) : Z := wrap (a + b).

End GoInt.

(** ** Go strings *)

Module GoString.

Definition len (s : string) : nat := String.length s.

(** [s[n:]] for [n <= len s]. *)
Fixpoint drop (n : nat) (s : string) : string :=
  match n, s with
  | O, _ => s
  | S n', String _ s' => drop n' s'
  | S _, EmptyString => EmptyString
  end.

(** [s[:n]] for [n <= len s]. *)
Fixpoint take (n : nat) (s : string) : string :=
  match n, s with
  | O, _ => EmptyString
  | S n', String c s' => String c (take n' s')
  | S _, EmptyString => EmptyString
  end.

(** [s[i]]; [None] where Go panics (index out of range). *)
Definition at_ (s : string) (i : nat) : option ascii := String.get i s.

(** [strings.HasPrefix(s, p)]. *)
Fixpoint HasPrefix (s p : string) {struct p} : bool :=
  match p with
  | EmptyString => true
  | String a p' =>
      match s with
      | EmptyString => false
      | String b s' => Ascii.eqb a b && HasPrefix s' p'
      end
  end.

(** [strings.Index(s, sub)], the offset of the first occurrence; [None]
    for Go's [-1]. *)
Fixpoint Index (s sub : string) : option nat :=
  if HasPrefix s sub then Some O
  else match s with
       | EmptyString => None
       | String _ s' => option_map S (Index s' sub)
       end.

Definition isEmpty (s : string) : bool :=
  match s with EmptyString => true | _ => false end.

Definition code (c : ascii) : Z := Z.of_N (N_of_ascii c).

(** [unicode.IsSpace] on the code points below 256. *)
Definition IsSpace (c : ascii) : bool :=
  let n := code c in
  ((9 <=? n) && (n <=? 13)) || (n =? 32) || (n =? 133) || (n =? 160).

Fixpoint allSpace (s : string) : bool :=
  match s with
  | EmptyString => true
  | String c s' => IsSpace c && allSpace s'
  end.

Fixpoint mem (c : ascii) (s : string) : bool :=
  match s with
  | EmptyString => false
  | String d s' => Ascii.eqb c d || mem c s'
  end.

End GoString.

Import GoString.

(** ** Lexical helpers *)

(** [forwardParseBuf], parse.go:46. *)
Definition forwardParseBuf (buf : string) (pos : nat) : string :=
  if (pos <? len buf)%nat then drop pos buf else "".

(** [delimiter], parse.go:54: the loop over ["<>[]()/"]. *)
Definition delimiter (b : ascii) : bool :=
  let s := "<>[]()/" in
  (fix loop (rest : string) : bool :=
     match rest with
     | EmptyString => false
     | String c rest' => if Ascii.eqb b c then true else loop rest'
     end) s.

(** Modelled from the spec: [trimLeftSpace] is called by parse.go and defined
    elsewhere in the package.  Spec 4.1, trimLeadingWhitespace: strips the
    leading whitespace characters and returns how many were stripped. *)
Fixpoint trimLeftSpace (s : string) : string * nat :=
  match s with
  | EmptyString => (EmptyString, O)
  | String c s' =>
      if IsSpace c
      then let (r, n) := trimLeftSpace s' in (r, S n)
      else (s, O)
  end.

(** The scan behind [positionToNextWhitespaceOrChar]: [i] is the offset of
    the head of [s]. *)
Fixpoint scanFrom (i : nat) (s chars : string) : nat * bool :=
  match s with
  | EmptyString => (i, false)
  | String c s' =>
      if IsSpace c || mem c chars then (i, true) else scanFrom (S i) s' chars
  end.

(** Modelled from the spec: [positionToNextWhitespaceOrChar] is called by
    parse.go and defined elsewhere in the package.  Spec 4.1,
    scanToWhitespaceOrAnyOf: the offset of the first character that is
    whitespace or a member of [chars], or the buffer length if none is found;
    the second component tells whether one was found.  Every caller in
    parse.go drops the second component and compares the offset with 0. *)
Definition positionToNextWhitespaceOrChar (s chars : string) : nat * bool :=
  scanFrom 0 s chars.

(** ** Errors *)

(** The error variables of parse.go:19-35, the errors it builds in place with
    [errors.New], and the errors handed on from [strconv]. *)
Inductive error : Type :=
| errArrayCorrupt
| errArrayNotTerminated
| errDictionaryCorrupt
| errDictionaryDuplicateKey
| errDictionaryNotTerminated
| errHexLiteralCorrupt
| errHexLiteralNotTerminated
| errNameObjectCorrupt
| errNoArray
| errNoDictionary
| errStringLiteralCorrupt
| errBufNotAvailable
| errXrefStreamMissingW
| errXrefStreamCorruptW
| errXrefStreamCorruptIndex
| errObjStreamMissingN
| errObjStreamMissingFirst
| errorsNew (msg : string)
| errStrconv (func input : string).

(** What a Go call does: return a value, return an error, or panic at an
    index out of range. *)
Inductive outcome (A : Type) : Type :=
| Ok (a : A)
| Err (e : error)
| Panic.

Arguments Ok {A} a.
Arguments Err {A} e.
Arguments Panic {A}.

(** ** strconv *)

Module strconv.

Definition digit (c : ascii) : option Z :=
  let n := code c in
  if (48 <=? n) && (n <=? 57) then Some (n - 48) else None.

Fixpoint digits (s : string) (acc : Z) : option Z :=
  match s with
  | EmptyString => Some acc
  | String c s' =>
      match digit c with
      | Some d => digits s' (acc * 10 + d)
      | None => None
      end
  end.

(** [strconv.Atoi] of Go's library: an optional sign, then one or more
    decimal digits; the value has to fit an [int]. *)
Definition Atoi (s : string) : outcome Z :=
  let '(neg, body) :=
    match s with
    | String "-"%char r => (true, r)
    | String "+"%char r => (false, r)
    | _ => (false, s)
    end in
  match body with
  | EmptyString => Err (errStrconv "Atoi" s)
  | _ =>
      match digits body 0 with
      | None => Err (errStrconv "Atoi" s)
      | Some n =>
          let v := if neg then - n else n in
          if GoInt.inRange v then Ok v else Err (errStrconv "Atoi" s)
      end
  end.

(** A [float64] as far as the parser is concerned: the decimal that was
    read, unrounded, or one of the special values. *)
Inductive float64 : Type :=
| Dec (mantissa exp10 : Z)
| Inf (neg : bool)
| NaN.

Definition lower (c : ascii) : ascii :=
  let n := code c in
  if (65 <=? n) && (n <=? 90) then ascii_of_N (Z.to_N (n + 32)) else c.

Fixpoint toLower (s : string) : string :=
  match s with
  | EmptyString => EmptyString
  | String c s' => String (lower c) (toLower s')
  end.

(** Reads digits; returns the accumulated value, how many were read and the
    rest. *)
Fixpoint span (s : string) (acc : Z) (n : Z) : Z * Z * string :=
  match s with
  | EmptyString => (acc, n, s)
  | String c s' =>
      match digit c with
      | Some d => span s' (acc * 10 + d) (n + 1)
      | None => (acc, n, s)
      end
  end.

Definition exponent (s : string) : option Z :=
  match s with
  | EmptyString => Some 0
  | String c r =>
      if Ascii.eqb (lower c) "e"%char then
        let '(neg, body) :=
          match r with
          | String "-"%char r' => (true, r')
          | String "+"%char r' => (false, r')
          | _ => (false, r)
          end in
        match body with
        | EmptyString => None
        | _ => match digits body 0 with
               | Some e => Some (if neg then - e else e)
               | None => None
               end
        end
      else None
  end.

(** [strconv.ParseFloat(s, 64)] of Go's library, on the decimal grammar
    [sign? digits? ('.' digits?)? ([eE] sign? digits)?] with at least one
    mantissa digit, and on the spellings of infinity and NaN.  Rounding to
    binary64 has no counterpart here: the decimal is kept as read. *)
Definition ParseFloat (s : string) : outcome float64 :=
  let bad := Err (errStrconv "ParseFloat" s) in
  let '(signed, neg, body) :=
    match s with
    | String "-"%char r => (true, true, r)
    | String "+"%char r => (true, false, r)
    | _ => (false, false, s)
    end in
  let low := toLower body in
  if String.eqb low "inf" || String.eqb low "infinity" then Ok (Inf neg)
  else if String.eqb low "nan" && negb signed then Ok NaN
  else
    let '(ip, ni, r1) := span body 0 0 in
    let '(m, nf, r2) :=
      match r1 with
      | String "."%char r => span r ip 0
      | _ => (ip, 0, r1)
      end in
    if (ni + nf =? 0) then bad
    else match exponent r2 with
         | Some e => Ok (Dec (if neg then - m else m) (e - nf))
         | None => bad
         end.

End strconv.

(** ** The object model *)

(** The values [parseObject] returns through [interface{}].  [PDFNull] stands
    for the [nil] value of the literal [null]. *)
#[warnings="-register-all"]
Inductive PDFObject : Type :=
| PDFNull
| PDFBoolean (b : bool)
| PDFInteger (i : Z)
| PDFFloat (f : strconv.float64)
| PDFName (s : string)
| PDFStringLiteral (s : string)
| PDFHexLiteral (s : string)
| PDFArray (elems : list PDFObject)
| PDFDict (entries : list (string * PDFObject))
| PDFIndirectRef (objectNumber generationNumber : Z).

(** Modelled from the spec: [types.PDFDict] belongs to the package [types].
    Spec 3: a mapping from the key text to a value, insertion order
    preserved, keys unique. *)
Definition dict : Type := list (string * PDFObject).

(** Modelled from the spec: [types.NewPDFDict], the empty dictionary. *)
Definition NewPDFDict : dict := [].

Definition hasKey (d : dict) (k : string) : bool :=
  existsb (fun kv => String.eqb (fst kv) k) d.

(** Modelled from the spec: [Insert] of [types.PDFDict].  Spec 4.6:
    inserting a key that is already present is refused ([None] for the
    result [false]); it does not overwrite. *)
Definition Insert (d : dict) (k : string) (v : PDFObject) : option dict :=
  if hasKey d k then None else Some (d ++ [(k, v)])%list.

(** ** Slices and short-circuit conditions *)

(** [s[a:b]]; [None] where Go panics (bounds out of range). *)
Definition slice (s : string) (a b : nat) : option string :=
  if (a <=? b)%nat && (b <=? len s)%nat then Some (take (b - a) (drop a s))
  else None.

(** [a || b] where evaluating [b] may panic; [b] is evaluated only when [a]
    is false. *)
Definition orElse (a : bool) (b : option bool) : option bool :=
  if a then Some true else b.

Definition quote : string := String (ascii_of_nat 34) EmptyString.

(** ** String and hex literals *)

Definition isByte (c : ascii) (n : Z) : bool := code c =? n.

(** The scan behind [balancedParenthesesPrefix]: [i] is the offset of the
    head of [s], [depth] the number of parentheses that are open, [escaped]
    whether the character before was an unescaped backslash. *)
Fixpoint balancedFrom (s : string) (i depth : nat) (escaped : bool)
  : option nat :=
  match s with
  | EmptyString => None
  | String c s' =>
      if escaped then balancedFrom s' (S i) depth false
      else if isByte c 92 then balancedFrom s' (S i) depth true
      else if isByte c 40 then balancedFrom s' (S i) (S depth) false
      else if isByte c 41 then
        match depth with
        | O => None
        | S O => Some i
        | S d => balancedFrom s' (S i) d false
        end
      else balancedFrom s' (S i) depth false
  end.

(** Modelled from the spec: [balancedParenthesesPrefix] is called by
    parse.go:239 and defined elsewhere in the package.  Spec 4.2: nesting is
    allowed, an unescaped closing parenthesis closes the literal when the
    nesting depth returns to zero; parse.go:237 adds that the result is the
    index of the enclosing parenthesis, negative when there is none
    ([None] here). *)
Definition balancedParenthesesPrefix (s : string) : option nat :=
  balancedFrom s 0 0 false.

Definition octal (c : ascii) : option Z :=
  let n := code c in
  if (48 <=? n) && (n <=? 55) then Some (n - 48) else None.

Definition byteOf (n : Z) : ascii := ascii_of_N (Z.to_N (n mod 256)).

Definition LF : ascii := byteOf 10.

(** Modelled from the spec: [stringLiteral] is called by parse.go:249 and
    defined elsewhere in the package.  Spec 4.2: the escapes n, r, t, b, f,
    the escaped parentheses and backslash, one to three octal digits; an
    unrecognised escape keeps the character and drops the backslash; a line
    break becomes one 0x0A; a backslash before a line break is elided with
    it. *)
Fixpoint stringLiteral (s : string) : string :=
  match s with
  | EmptyString => EmptyString
  | String c r =>
      if isByte c 92 then
        match r with
        | EmptyString => EmptyString
        | String d r1 =>
            if isByte d 110 then String (byteOf 10) (stringLiteral r1)
            else if isByte d 114 then String (byteOf 13) (stringLiteral r1)
            else if isByte d 116 then String (byteOf 9) (stringLiteral r1)
            else if isByte d 98 then String (byteOf 8) (stringLiteral r1)
            else if isByte d 102 then String (byteOf 12) (stringLiteral r1)
            else if isByte d 10 then stringLiteral r1
            else if isByte d 13 then
              match r1 with
              | String e r2 =>
                  if isByte e 10 then stringLiteral r2 else stringLiteral r1
              | EmptyString => EmptyString
              end
            else
              match octal d with
              | None => String d (stringLiteral r1)
              | Some o1 =>
                  match r1 with
                  | EmptyString => String (byteOf o1) EmptyString
                  | String e r2 =>
                      match octal e with
                      | None => String (byteOf o1) (stringLiteral r1)
                      | Some o2 =>
                          match r2 with
                          | EmptyString =>
                              String (byteOf (o1 * 8 + o2)) EmptyString
                          | String g r3 =>
                              match octal g with
                              | None =>
                                  String (byteOf (o1 * 8 + o2))
                                         (stringLiteral r2)
                              | Some o3 =>
                                  String (byteOf ((o1 * 8 + o2) * 8 + o3))
                                         (stringLiteral r3)
                              end
                          end
                      end
                  end
              end
        end
      else if isByte c 13 then
        match r with
        | String d r1 =>
            if isByte d 10 then String LF (stringLiteral r1)
            else String LF (stringLiteral r)
        | EmptyString => String LF EmptyString
        end
      else String c (stringLiteral r)
  end.

Definition hexDigit (c : ascii) : option Z :=
  let n := code c in
  if (48 <=? n) && (n <=? 57) then Some (n - 48)
  else if (65 <=? n) && (n <=? 70) then Some (n - 55)
  else if (97 <=? n) && (n <=? 102) then Some (n - 87)
  else None.

Fixpoint hexDigits (s : string) : option (list Z) :=
  match s with
  | EmptyString => Some []
  | String c r =>
      if IsSpace c then hexDigits r
      else match hexDigit c, hexDigits r with
           | Some d, Some ds => Some (d :: ds)
           | _, _ => None
           end
  end.

Fixpoint hexPairs (ds : list Z) : string :=
  match ds with
  | [] => EmptyString
  | [a] => String (byteOf (a * 16)) EmptyString
  | a :: b :: r => String (byteOf (a * 16 + b)) (hexPairs r)
  end.

(** Modelled from the spec: [hexString] is called by parse.go:284 and defined
    elsewhere in the package.  Spec 4.3: the interior decodes as pairs of hex
    digits, either case; an odd trailing digit is padded with a zero; a
    character that is neither a hex digit nor whitespace makes it fail. *)
Definition hexString (s : string) : option string :=
  option_map hexPairs (hexDigits s).

(** [parseStringLiteral], parse.go:203. *)
Definition parseStringLiteral (line : string) : outcome PDFObject * string :=
  if isEmpty line then (Err errBufNotAvailable, line) else
  let l := line in
  if (len l <? 2)%nat || negb (HasPrefix l "(") then
    (Err errStringLiteralCorrupt, line)
  else
    match balancedParenthesesPrefix l with
    | None => (Err errStringLiteralCorrupt, line)
    | Some i =>
        match slice l 1 i with
        | None => (Panic, line)
        | Some balParStr =>
            let str := stringLiteral balParStr in
            (Ok (PDFStringLiteral str), forwardParseBuf (drop i l) 1)
        end
    end.

(** [parseHexLiteral], parse.go:260. *)
Definition parseHexLiteral (line : string) : outcome PDFObject * string :=
  if isEmpty line then (Err errBufNotAvailable, line) else
  let l := line in
  if (len l <? 3)%nat || negb (HasPrefix l "<") then
    (Err errHexLiteralCorrupt, line)
  else
    let l := forwardParseBuf l 1 in
    match Index l ">" with
    | None => (Err errHexLiteralNotTerminated, line)
    | Some eov =>
        match hexString (take eov l) with
        | None => (Err errHexLiteralCorrupt, line)
        | Some hexStr =>
            (Ok (PDFHexLiteral hexStr), forwardParseBuf (drop eov l) 1)
        end
    end.

(** ** Names *)

(** [parseName], parse.go:295.  The result is the text of the [PDFName]. *)
Definition parseName (line : string) : outcome string * string :=
  if isEmpty line then (Err errBufNotAvailable, line) else
  let l := line in
  if (len l <? 2)%nat || negb (HasPrefix l "/") then
    (Err errNameObjectCorrupt, line)
  else
    let l := forwardParseBuf l 1 in
    let eok := fst (positionToNextWhitespaceOrChar l "/<>()[]") in
    match orElse (0 <? eok)%nat (option_map IsSpace (at_ l 0)) with
    | None => (Panic, line)
    | Some true => (Ok (take eok l), drop eok l)
    | Some false => (Ok l, "")
    end.

(** ** Numbers and indirect references *)

(** [parseNumericOrIndRef], parse.go:408.  At parse.go:505 the source
    assigns [l1] to the local [l], not to [*line]: that return leaves the
    caller's buffer as it was. *)
Definition parseNumericOrIndRef (line : string) : outcome PDFObject * string :=
  if isEmpty line then (Err errBufNotAvailable, line) else
  let l := line in
  let i1 := fst (positionToNextWhitespaceOrChar l "/<([]>") in
  let l1 := if (0 <? i1)%nat then drop i1 l else drop (len l) l in
  let str := if (0 <? i1)%nat then take i1 l else l in
  match strconv.Atoi str with
  | Ok i =>
      match orElse (i1 =? 0)%nat (option_map delimiter (at_ l i1)) with
      | None => (Panic, line)
      | Some true => (Ok (PDFInteger i), l1)
      | Some false =>
          let iref1 := i in
          let l := drop i1 l in
          let l := fst (trimLeftSpace l) in
          if isEmpty l then (Ok (PDFInteger i), l1) else
          let i2 := fst (positionToNextWhitespaceOrChar l "/<([]>") in
          match orElse (i2 =? 0)%nat (option_map delimiter (at_ l i2)) with
          | None => (Panic, line)
          | Some true => (Ok (PDFInteger i), l1)
          | Some false =>
              let str := if (0 <? i2)%nat then take i2 l else l in
              match strconv.Atoi str with
              | Ok iref2 =>
                  let l := drop i2 l in
                  let l := fst (trimLeftSpace l) in
                  if isEmpty l then (Ok (PDFInteger i), line) else
                  match at_ l 0 with
                  | None => (Panic, line)
                  | Some c =>
                      if Ascii.eqb c "R"%char
                      then (Ok (PDFIndirectRef iref1 iref2),
                            forwardParseBuf l 1)
                      else (Ok (PDFInteger i), l1)
                  end
              | _ => (Ok (PDFInteger i), l1)
              end
          end
      end
  | _ =>
      match strconv.ParseFloat str with
      | Ok f => (Ok (PDFFloat f), l1)
      | Err e => (Err e, line)
      | Panic => (Panic, line)
      end
  end.

(** ** Object attributes *)

(** [parseObjectAttributes], parse.go:68. *)
Definition parseObjectAttributes (line : string) : outcome (Z * Z) * string :=
  if isEmpty line then
    (Err (errorsNew "ParseObjectAttributes: buf not available"), line)
  else
  let l := line in
  match Index l "obj" with
  | None =>
      (Err (errorsNew ("ParseObjectAttributes: can't find "
                         ++ quote ++ "obj" ++ quote)), line)
  | Some i =>
      let remainder := drop (i + len "obj") l in
      let l := take i l in
      let l := fst (trimLeftSpace l) in
      if isEmpty l then
        (Err (errorsNew "ParseObjectAttributes: can't find object number"),
         line)
      else
      let i := fst (positionToNextWhitespaceOrChar l "%") in
      if (i =? 0)%nat then
        (Err (errorsNew
                "ParseObjectAttributes: can't find end of object number"),
         line)
      else
      match strconv.Atoi (take i l) with
      | Err e => (Err e, line)
      | Panic => (Panic, line)
      | Ok objNr =>
          let l := drop i l in
          let l := fst (trimLeftSpace l) in
          if isEmpty l then
            (Err (errorsNew
                    "ParseObjectAttributes: can't find generation number"),
             line)
          else
          let i := fst (positionToNextWhitespaceOrChar l "%") in
          if (i =? 0)%nat then
            (Err (errorsNew
               "ParseObjectAttributes: can't find end of generation number"),
             line)
          else
          match strconv.Atoi (take i l) with
          | Err e => (Err e, line)
          | Panic => (Panic, line)
          | Ok genNr => (Ok (objNr, genNr), remainder)
          end
      end
  end.

(** ** Arrays, dictionaries and the dispatcher *)

(** A parser call: [None] when the fuel ran out before the call returned,
    else what it did and the buffer its [line] argument points to at the
    end. *)
Definition parsed (A : Type) : Type := option (outcome A * string).

(** The state of a loop at its exit: the collection and the local [l]. *)
Definition looped (A : Type) : Type := option (outcome (A * string)).

(** [parseArray], parse.go:139, with the loop of parse.go:171-190 as
    [loop]: it is given the local [l] and the empty array. *)
Definition parseArrayWith (loop : string -> list PDFObject
                                  -> looped (list PDFObject))
                          (line : string) : parsed (list PDFObject) :=
  if isEmpty line then Some (Err errNoArray, line) else
  let l := line in
  if negb (HasPrefix l "[") then Some (Err errArrayCorrupt, line) else
  if (len l =? 1)%nat then Some (Err errArrayNotTerminated, line) else
  let l := forwardParseBuf l 1 in
  let l := fst (trimLeftSpace l) in
  if isEmpty l then Some (Err errArrayNotTerminated, line) else
  match loop l [] with
  | None => None
  | Some (Err e) => Some (Err e, line)
  | Some Panic => Some (Panic, line)
  | Some (Ok (arr, l)) =>
      let l := forwardParseBuf l 1 in
      Some (Ok arr, l)
  end.

(** [parseDict], parse.go:331, with the loop of parse.go:358-396 as
    [loop]. *)
Definition parseDictWith (loop : string -> dict -> looped dict)
                         (line : string) : parsed dict :=
  if isEmpty line then Some (Err errNoDictionary, line) else
  let l := line in
  if (len l <? 4)%nat || negb (HasPrefix l "<<") then
    Some (Err errDictionaryCorrupt, line)
  else
  let l := forwardParseBuf l 2 in
  let l := fst (trimLeftSpace l) in
  if isEmpty l then Some (Err errDictionaryNotTerminated, line) else
  match loop l NewPDFDict with
  | None => None
  | Some (Err e) => Some (Err e, line)
  | Some Panic => Some (Panic, line)
  | Some (Ok (d, l)) =>
      let l := forwardParseBuf l 2 in
      Some (Ok d, l)
  end.

(** [parseObject], parse.go:523, over the two loops. *)
Definition parseObjectWith
    (arrayLoop : string -> list PDFObject -> looped (list PDFObject))
    (dictLoop : string -> dict -> looped dict)
    (line : string) : parsed PDFObject :=
  if isEmpty line then Some (Err errBufNotAvailable, line) else
  let l := line in
  let l := fst (trimLeftSpace l) in
  if isEmpty l then Some (Err errBufNotAvailable, line) else
  (* the sub-parsers get the address of the local [l]; [*line = l] is the
     last statement *)
  let sub {A : Type} (r : parsed A) (value : A -> PDFObject)
      : parsed PDFObject :=
    match r with
    | None => None
    | Some (Err e, _) => Some (Err e, line)
    | Some (Panic, _) => Some (Panic, line)
    | Some (Ok a, l) => Some (Ok (value a), l)
    end in
  match at_ l 0 with
  | None => Some (Panic, line)
  | Some c =>
      if Ascii.eqb c "["%char then
        sub (parseArrayWith arrayLoop l) PDFArray
      else if Ascii.eqb c "/"%char then
        sub (Some (parseName l)) PDFName
      else if Ascii.eqb c "<"%char then
        if (len l <? 2)%nat then Some (Err errBufNotAvailable, line) else
        match at_ l 1 with
        | None => Some (Panic, line)
        | Some c1 =>
            if Ascii.eqb c1 "<"%char then
              sub (parseDictWith dictLoop l) PDFDict
            else
              sub (Some (parseHexLiteral l)) (fun v => v)
        end
      else if Ascii.eqb c "("%char then
        sub (Some (parseStringLiteral l)) (fun v => v)
      else if HasPrefix l "null" then
        Some (Ok PDFNull, forwardParseBuf l (len "null"))
      else if HasPrefix l "true" then
        Some (Ok (PDFBoolean true), forwardParseBuf l (len "true"))
      else if HasPrefix l "false" then
        Some (Ok (PDFBoolean false), forwardParseBuf l (len "false"))
      else
        sub (Some (parseNumericOrIndRef l)) (fun v => v)
  end.

(** The two loops.  One unit of fuel per iteration; the objects inside an
    element are parsed with what is left. *)
Fixpoint arrayLoop (fuel : nat) (l : string) (arr : list PDFObject)
  {struct fuel} : looped (list PDFObject) :=
  match fuel with
  | O => None
  | S fuel' =>
      if HasPrefix l "]" then Some (Ok (arr, l)) else
      match parseObjectWith (arrayLoop fuel') (dictLoop fuel') l with
      | None => None
      | Some (Err e, _) => Some (Err e)
      | Some (Panic, _) => Some Panic
      | Some (Ok obj, l) =>
          let arr := (arr ++ [obj])%list in
          if isEmpty l then Some (Err errArrayNotTerminated) else
          let l := fst (trimLeftSpace l) in
          if isEmpty l then Some (Err errArrayNotTerminated) else
          arrayLoop fuel' l arr
      end
  end
with dictLoop (fuel : nat) (l : string) (d : dict)
  {struct fuel} : looped dict :=
  match fuel with
  | O => None
  | S fuel' =>
      if HasPrefix l ">>" then Some (Ok (d, l)) else
      match parseName l with
      | (Err e, _) => Some (Err e)
      | (Panic, _) => Some Panic
      | (Ok key, l) =>
          let l := fst (trimLeftSpace l) in
          if isEmpty l then Some (Err errDictionaryNotTerminated) else
          match parseObjectWith (arrayLoop fuel') (dictLoop fuel') l with
          | None => None
          | Some (Err e, _) => Some (Err e)
          | Some (Panic, _) => Some Panic
          | Some (Ok obj, l) =>
              match Insert d key obj with
              | None => Some (Err errDictionaryDuplicateKey)
              | Some d =>
                  if isEmpty l then Some (Err errDictionaryNotTerminated) else
                  let l := fst (trimLeftSpace l) in
                  if isEmpty l then Some (Err errDictionaryNotTerminated) else
                  dictLoop fuel' l d
              end
          end
      end
  end.

Definition parseObject (fuel : nat) : string -> parsed PDFObject :=
  parseObjectWith (arrayLoop fuel) (dictLoop fuel).

Definition parseArray (fuel : nat) : string -> parsed (list PDFObject) :=
  parseArrayWith (arrayLoop fuel).

Definition parseDict (fuel : nat) : string -> parsed dict :=
  parseDictWith (dictLoop fuel).

(** ** Cross-reference stream dictionaries *)

Module PDFStreamDict.
(** Modelled from the spec: [types.PDFStreamDict] belongs to the package
    [types].  Spec 6 (a): typed field accessors [Size()], [Index()], [W()],
    [Prev()] returning optional values.  The record holds what each accessor
    returns, [None] for [nil]. *)
Record t : Type := Build {
  Size : option Z;
  Index : option (list PDFObject);
  W : option (list PDFObject);
  Prev : option Z
}.
End PDFStreamDict.

Module PDFXRefStreamDict.
(** [types.PDFXRefStreamDict], with the fields that the composite literal of
    parse.go:714 fills. *)
Record t : Type := Build {
  PDFStreamDict : PDFStreamDict.t;
  Size : Z;
  Objects : list Z;
  W : Z * Z * Z;
  PreviousOffset : option Z
}.
End PDFXRefStreamDict.

(** parse.go:664, [for j := 0; j < count.Value(); j++]: [n] is the number of
    iterations left, [count - j] when that is positive. *)
Fixpoint countLoop (n : nat) (j : Z) (startObj : Z) (objs : list Z) : list Z :=
  match n with
  | O => objs
  | S n' => countLoop n' (j + 1) startObj (objs ++ [GoInt.add startObj j])%list
  end.

(** parse.go:652, [for i := 0; i < len(indArr)/2; i++]: [n] is the number of
    iterations left. *)
Fixpoint indexLoop (n : nat) (i : nat) (indArr : list PDFObject)
                   (objs : list Z) : outcome (list Z) :=
  match n with
  | O => Ok objs
  | S n' =>
      match nth_error indArr (i * 2) with
      | None => Panic
      | Some (PDFInteger startObj) =>
          match nth_error indArr (i * 2 + 1) with
          | None => Panic
          | Some (PDFInteger count) =>
              indexLoop n' (i + 1) indArr
                        (countLoop (Z.to_nat count) 0 startObj objs)
          | Some _ => Err errXrefStreamCorruptIndex
          end
      | Some _ => Err errXrefStreamCorruptIndex
      end
  end.

(** parse.go:671, [for i := 0; i < *pdfStreamDict.Size(); i++]. *)
Fixpoint sizeLoop (n : nat) (i : Z) (objs : list Z) : list Z :=
  match n with
  | O => objs
  | S n' => sizeLoop n' (i + 1) (objs ++ [i])%list
  end.

(** parse.go:640-675: the object numbers. *)
Definition xrefObjects (size : Z) (pIndArr : option (list PDFObject))
  : outcome (list Z) :=
  let objs := [] in
  match pIndArr with
  | Some indArr =>
      if (1 <? List.length indArr mod 2)%nat then Err errXrefStreamCorruptIndex
      else indexLoop (List.length indArr / 2) 0 indArr objs
  | None => Ok (sizeLoop (Z.to_nat size) 0 objs)
  end.

(** One element of [W], parse.go:693: the type assertion and the sign. *)
Definition width (arr : list PDFObject) (k : nat) : outcome Z :=
  match nth_error arr k with
  | None => Panic
  | Some (PDFInteger i) => if i <? 0 then Err errXrefStreamCorruptW else Ok i
  | Some _ => Err errXrefStreamCorruptW
  end.

(** parse.go:680-712: the field widths. *)
Definition xrefWidths (w : option (list PDFObject)) : outcome (Z * Z * Z) :=
  match w with
  | None => Err errXrefStreamMissingW
  | Some arr =>
      if negb (List.length arr =? 3)%nat then Err errXrefStreamCorruptW else
      match width arr 0 with
      | Ok i1 =>
          match width arr 1 with
          | Ok i2 =>
              match width arr 2 with
              | Ok i3 => Ok (i1, i2, i3)
              | Err e => Err e
              | Panic => Panic
              end
          | Err e => Err e
          | Panic => Panic
          end
      | Err e => Err e
      | Panic => Panic
      end
  end.

(** [parseXRefStreamDict], parse.go:632. *)
Definition parseXRefStreamDict (pdfStreamDict : PDFStreamDict.t)
  : outcome PDFXRefStreamDict.t :=
  match PDFStreamDict.Size pdfStreamDict with
  | None =>
      Err (errorsNew ("ParseXRefStreamDict: " ++ quote ++ "Size" ++ quote
                        ++ " not available"))
  | Some size =>
      match xrefObjects size (PDFStreamDict.Index pdfStreamDict) with
      | Err e => Err e
      | Panic => Panic
      | Ok objs =>
          match xrefWidths (PDFStreamDict.W pdfStreamDict) with
          | Err e => Err e
          | Panic => Panic
          | Ok wIntArr =>
              Ok (PDFXRefStreamDict.Build
                    pdfStreamDict size objs wIntArr
                    (PDFStreamDict.Prev pdfStreamDict))
          end
      end
  end.

(** ** Predicates on loops and buffers *)

(** Whatever the loop [f] returns, the loop [g] returns too. *)
Definition below {A : Type} (f g : string -> A -> looped A) : Prop :=
  forall l a r, f l a = Some r -> g l a = Some r.

(** No leading whitespace: what [trimLeftSpace] stops at. *)
Definition trimmed (s : string) : bool :=
  match s with
  | EmptyString => true
  | String c _ => negb (IsSpace c)
  end.

(** A token: no character at which a scan for whitespace or [chars]
    stops. *)
Fixpoint plain (chars s : string) : bool :=
  match s with
  | EmptyString => true
  | String c s' => negb (IsSpace c || mem c chars) && plain chars s'
  end.

(** ** The cross-reference stream descriptor, as the specification words it *)

(** Spec 4.10: the [Index] entry read as pairs [(start, count)].  An element
    left over at the end belongs to no pair; [None] when an element of a pair
    is not an integer. *)
Fixpoint indexPairs (arr : list PDFObject) : option (list (Z * Z)) :=
  match arr with
  | a :: b :: r =>
      match a, b, indexPairs r with
      | PDFInteger start, PDFInteger count, Some ps =>
          Some ((start, count) :: ps)
      | _, _, _ => None
      end
  | _ => Some []
  end.

(** Spec 4.10: the numbers [start, start+1, ..., start+count-1] of one pair,
    none when [count] is not positive; the sums are Go's. *)
Definition expand (p : Z * Z) : list Z :=
  map (fun k => GoInt.add (fst p) (Z.of_nat k)) (seq 0 (Z.to_nat (snd p))).

(** Spec 3: the sum of all [Index] counts. *)
Definition sumCounts (ps : list (Z * Z)) : Z :=
  fold_right (fun p acc => snd p + acc) 0 ps.

(** The same sum over the counts that are positive. *)
Definition sumPositiveCounts (ps : list (Z * Z)) : Z :=
  fold_right (fun p acc => Z.max 0 (snd p) + acc) 0 ps.

(** Spec 4.10: an element of [W] that is a non-negative integer. *)
Definition validWidth (o : PDFObject) : bool :=
  match o with
  | PDFInteger i => 0 <=? i
  | _ => false
  end.

(** The object numbers of a descriptor that was built. *)
Definition objectNumbers (r : outcome PDFXRefStreamDict.t)
  : option (list Z) :=
  match r with
  | Ok x => Some (PDFXRefStreamDict.Objects x)
  | _ => None
  end.

(** The widths, an [Index] entry and a [Size] that the examples share. *)
Definition widths121 : list PDFObject :=
  [PDFInteger 1; PDFInteger 2; PDFInteger 1].

Definition streamDict (index w : option (list PDFObject)) : PDFStreamDict.t :=
  PDFStreamDict.Build (Some 10) index w None.

(** ** Predicates for the properties of the cursor and of the values *)

(** [r] is [s] without a prefix: what a cursor that only moves forward
    leaves of [s]. *)
Definition suffix (r s : string) : Prop := exists p : string, s = p ++ r.

(** A loop hands back a suffix of the buffer it was started on. *)
Definition loopForward {A : Type} (loop : string -> A -> looped A) : Prop :=
  forall l a a' l', loop l a = Some (Ok (a', l')) -> suffix l' l.

(** No key text occurs twice. *)
Fixpoint distinct (ks : list string) : bool :=
  match ks with
  | [] => true
  | k :: r => negb (existsb (String.eqb k) r) && distinct r
  end.

(** Every dictionary inside a value, at any depth, has distinct keys. *)
Fixpoint distinctKeys (o : PDFObject) : bool :=
  match o with
  | PDFArray elems => forallb distinctKeys elems
  | PDFDict entries =>
      distinct (map fst entries)
      && forallb (fun kv => distinctKeys (snd kv)) entries
  | _ => true
  end.

(** The same for the entries of one dictionary. *)
Definition distinctDict (d : dict) : bool :=
  distinct (map fst d) && forallb (fun kv => distinctKeys (snd kv)) d.

(** A loop keeps the keys distinct in what it collects. *)
Definition loopDistinctA (loop : string -> list PDFObject
                               -> looped (list PDFObject)) : Prop :=
  forall l arr arr' l', forallb distinctKeys arr = true ->
    loop l arr = Some (Ok (arr', l')) -> forallb distinctKeys arr' = true.

Definition loopDistinctD (loop : string -> dict -> looped dict) : Prop :=
  forall l d d' l', distinctDict d = true ->
    loop l d = Some (Ok (d', l')) -> distinctDict d' = true.

(** [s] is empty or starts with a character at which a scan for whitespace
    or [chars] stops. *)
Definition stopsAt (chars s : string) : bool :=
  match s with
  | EmptyString => true
  | String c _ => IsSpace c || mem c chars
  end.

(** A sign or a decimal digit: what an integer token starts with. *)
Definition numeral (c : ascii) : bool :=
  let n := code c in
  (n =? 43) || (n =? 45) || ((48 <=? n) && (n <=? 57)).

(** Integer tokens written one after the other with a blank between
    them. *)
Fixpoint intsText (ts : list string) : string :=
  match ts with
  | [] => ""
  | [t] => t
  | t :: r => t ++ " " ++ intsText r
  end.

(** The tokens [ts] are integer tokens and [ns] their values. *)
Definition tokens (ts : list string) (ns : list Z) : Prop :=
  Forall2 (fun t n => strconv.Atoi t = Ok n) ts ns.

(** Signs and digits only. *)
Fixpoint numerals (s : string) : bool :=
  match s with
  | EmptyString => true
  | String c s' => numeral c && numerals s'
  end.

(** Dictionary entries with integer values: the key, the token of the value
    and the value. *)
Definition intEntry : Type := (string * string * Z)%type.

Definition keyOf (e : intEntry) : string := fst (fst e).

(** The key is a name body and the token reads as the value. *)
Definition entryOk (e : intEntry) : Prop :=
  plain "/<>()[]" (keyOf e) = true /\ isEmpty (keyOf e) = false
  /\ strconv.Atoi (snd (fst e)) = Ok (snd e).

(** The entries written one after the other, each as a slash, the key, a
    blank and the token. *)
Fixpoint dictText (es : list intEntry) : string :=
  match es with
  | [] => ""
  | e :: r => "/" ++ keyOf e ++ " " ++ snd (fst e) ++ dictText r
  end.

(** The dictionary the entries stand for. *)
Definition dictOf (es : list intEntry) : dict :=
  map (fun e => (keyOf e, PDFInteger (snd e))) es.

(** * Properties *)

(** ** Go's [int] *)

Lemma wrap_inRange (z : Z) : GoInt.inRange z = true -> GoInt.wrap z = z.
Proof.
  unfold GoInt.inRange, GoInt.wrap, GoInt.minInt, GoInt.maxInt, GoInt.bits.
  cbn -[Z.modulo].
  intro H. apply andb_prop in H. destruct H as [H1 H2].
  apply Z.leb_le in H1. apply Z.leb_le in H2.
  rewrite Z.mod_small; lia.
Qed.

(** ** Strings *)

Section StringFacts.

Local Open Scope nat_scope.

Lemma len_app (s t : string) : len (s ++ t) = len s + len t.
Proof. induction s as [|c s IH]; simpl; [reflexivity | now rewrite IH]. Qed.

Lemma drop_app (s t : string) : drop (len s) (s ++ t) = t.
Proof. induction s as [|c s IH]; simpl; [now destruct t | exact IH]. Qed.

Lemma take_app (s t : string) : take (len s) (s ++ t) = s.
Proof. induction s as [|c s IH]; simpl; [now destruct t | now rewrite IH]. Qed.

Lemma at_app (s t : string) (c : ascii) :
  at_ (s ++ String c t) (len s) = Some c.
Proof.
unfold at_. induction s as [|d s IH]; simpl; [reflexivity | exact IH].
Qed.

Lemma isEmpty_app_cons (s t : string) (c : ascii) :
  isEmpty (s ++ String c t) = false.
Proof. now destruct s. Qed.

Lemma forwardParseBuf_app (p r : string) :
  forwardParseBuf (p ++ r) (len p) = r.
Proof.
  unfold forwardParseBuf. rewrite len_app, drop_app.
  destruct (len p <? len p + len r) eqn:E; [reflexivity|].
  apply Nat.ltb_ge in E. destruct r; [reflexivity | simpl in E; lia].
Qed.

Lemma trimLeftSpace_trimmed (s : string) :
  trimmed s = true -> trimLeftSpace s = (s, 0).
Proof.
  destruct s as [|c s]; simpl; [reflexivity|].
  now destruct (IsSpace c).
Qed.

Lemma trimLeftSpace_app (ws s : string) :
  allSpace ws = true -> trimmed s = true ->
  fst (trimLeftSpace (ws ++ s)) = s.
Proof.
  intros Hws Hs. induction ws as [|c ws IH]; simpl.
  - now rewrite trimLeftSpace_trimmed.
  - simpl in Hws. apply andb_prop in Hws. destruct Hws as [Hc Hws].
    rewrite Hc. specialize (IH Hws).
    destruct (trimLeftSpace (ws ++ s)); exact IH.
Qed.

Lemma trimLeftSpace_allSpace (ws : string) :
  allSpace ws = true -> fst (trimLeftSpace ws) = "".
Proof.
  intro H. induction ws as [|c ws IH]; simpl; [reflexivity|].
  simpl in H. apply andb_prop in H. destruct H as [Hc H].
  rewrite Hc. specialize (IH H).
  destruct (trimLeftSpace ws); exact IH.
Qed.

Lemma plain_cons (chars s : string) (c : ascii) :
  plain chars (String c s)
  = negb (IsSpace c || mem c chars) && plain chars s.
Proof. reflexivity. Qed.

Lemma scanFrom_token (chars t r : string) (c : ascii) (i : nat) :
  plain chars t = true -> IsSpace c || mem c chars = true ->
  scanFrom i (t ++ String c r) chars = (i + len t, true).
Proof.
  intros Ht Hc. revert i. induction t as [|d t IH]; intro i; simpl.
  - rewrite Hc. f_equal. lia.
  - simpl in Ht. apply andb_prop in Ht. destruct Ht as [Hd Ht].
    apply negb_true_iff in Hd. rewrite Hd, (IH Ht). f_equal. lia.
Qed.

Lemma position_token (chars t r : string) (c : ascii) :
  plain chars t = true -> IsSpace c || mem c chars = true ->
  fst (positionToNextWhitespaceOrChar (t ++ String c r) chars) = len t.
Proof.
  intros Ht Hc. unfold positionToNextWhitespaceOrChar.
  now rewrite (scanFrom_token _ _ _ _ _ Ht Hc).
Qed.

Lemma plain_trimmed (chars t r : string) :
  plain chars t = true -> t <> "" -> trimmed (t ++ r) = true.
Proof.
  destruct t as [|c t]; [congruence|]. simpl. intros H _.
  apply andb_prop in H. destruct H as [H _].
  apply negb_true_iff in H. apply orb_false_iff in H.
  destruct H as [H _]. now rewrite H.
Qed.

Lemma space_not_delimiter (c : ascii) :
  IsSpace c = true -> delimiter c = false.
Proof.
  destruct c as [[] [] [] [] [] [] [] []]; vm_compute; congruence.
Qed.

End StringFacts.

(** ** Integer tokens *)

Section AtoiFacts.

Lemma digit_plain (c : ascii) (d : Z) :
  strconv.digit c = Some d ->
  negb (IsSpace c || mem c "/<([]>") = true /\
  negb (IsSpace c || mem c "/<>()[]") = true.
Proof.
  destruct c as [[] [] [] [] [] [] [] []]; vm_compute;
    intuition congruence.
Qed.

Lemma digits_plain (s : string) (acc n : Z) :
  strconv.digits s acc = Some n -> plain "/<([]>" s = true.
Proof.
  revert acc. induction s as [|c s IH]; intros acc H; [reflexivity|].
  cbn [strconv.digits] in H. cbn [plain].
  destruct (strconv.digit c) as [d|] eqn:E; [|discriminate].
  apply digit_plain in E. destruct E as [E _].
  rewrite E. simpl. exact (IH _ H).
Qed.

(** An integer token has at least one character and none that ends a
    scan. *)
Lemma Atoi_token (s : string) (n : Z) :
  strconv.Atoi s = Ok n -> plain "/<([]>" s = true /\ s <> "".
Proof.
  unfold strconv.Atoi. intro H.
  destruct s as [|c s]; [discriminate|].
  split; [|discriminate].
  destruct (Ascii.eqb c "-") eqn:Em;
    [apply Ascii.eqb_eq in Em; subst c|].
  { destruct s; [discriminate|].
    destruct (strconv.digits (String a s) 0) eqn:E; [|discriminate].
    apply digits_plain in E. rewrite plain_cons, E. reflexivity. }
  destruct (Ascii.eqb c "+") eqn:Ep;
    [apply Ascii.eqb_eq in Ep; subst c|].
  { destruct s; [discriminate|].
    destruct (strconv.digits (String a s) 0) eqn:E; [|discriminate].
    apply digits_plain in E. rewrite plain_cons, E. reflexivity. }
  assert (Hd : exists m, strconv.digits (String c s) 0 = Some m).
  { destruct c as [[] [] [] [] [] [] [] []];
      try discriminate Em; try discriminate Ep;
      (destruct (strconv.digits _ 0) eqn:E; [eauto | discriminate]). }
  destruct Hd as [m Hd]. exact (digits_plain _ _ _ Hd).
Qed.

End AtoiFacts.

(** ** Fuel *)

Section Fuel.

Variables (a1 a2 : string -> list PDFObject -> looped (list PDFObject)).
Variables (d1 d2 : string -> dict -> looped dict).
Hypothesis Ha : below a1 a2.
Hypothesis Hd : below d1 d2.

Lemma parseArrayWith_below
  (line : string) (r : outcome (list PDFObject) * string) :
  parseArrayWith a1 line = Some r -> parseArrayWith a2 line = Some r.
Proof.
  unfold parseArrayWith.
  repeat match goal with
         | |- context [if ?b then _ else _] => destruct b
         end; auto.
  match goal with
  | |- context [a1 ?l ?a] => destruct (a1 l a) as [o|] eqn:E
  end; [now rewrite (Ha _ _ _ E) | discriminate].
Qed.

Lemma parseDictWith_below (line : string) (r : outcome dict * string) :
  parseDictWith d1 line = Some r -> parseDictWith d2 line = Some r.
Proof.
  unfold parseDictWith.
  repeat match goal with
         | |- context [if ?b then _ else _] => destruct b
         end; auto.
  match goal with
  | |- context [d1 ?l ?a] => destruct (d1 l a) as [o|] eqn:E
  end; [now rewrite (Hd _ _ _ E) | discriminate].
Qed.

Lemma parseObjectWith_below
  (line : string) (r : outcome PDFObject * string) :
  parseObjectWith a1 d1 line = Some r -> parseObjectWith a2 d2 line = Some r.
Proof.
  unfold parseObjectWith.
  repeat match goal with
         | |- context [if ?b then _ else _] => destruct b
         | |- context [match at_ ?l ?i with _ => _ end] => destruct (at_ l i)
         end; auto.
  all: match goal with
       | |- context [parseArrayWith a1 ?l] =>
           destruct (parseArrayWith a1 l) as [o|] eqn:E;
           [now rewrite (parseArrayWith_below _ _ E) | discriminate]
       | |- context [parseDictWith d1 ?l] =>
           destruct (parseDictWith d1 l) as [o|] eqn:E;
           [now rewrite (parseDictWith_below _ _ E) | discriminate]
       end.
Qed.

End Fuel.

Lemma arrayLoop_S (fuel : nat) (l : string) (arr : list PDFObject) :
  arrayLoop (S fuel) l arr =
      if HasPrefix l "]" then Some (Ok (arr, l)) else
      match parseObjectWith (arrayLoop fuel) (dictLoop fuel) l with
      | None => None
      | Some (Err e, _) => Some (Err e)
      | Some (Panic, _) => Some Panic
      | Some (Ok obj, l) =>
          let arr := (arr ++ [obj])%list in
          if isEmpty l then Some (Err errArrayNotTerminated) else
          let l := fst (trimLeftSpace l) in
          if isEmpty l then Some (Err errArrayNotTerminated) else
          arrayLoop fuel l arr
      end.
Proof. reflexivity. Qed.

Lemma dictLoop_S (fuel : nat) (l : string) (d : dict) :
  dictLoop (S fuel) l d =
      if HasPrefix l ">>" then Some (Ok (d, l)) else
      match parseName l with
      | (Err e, _) => Some (Err e)
      | (Panic, _) => Some Panic
      | (Ok key, l) =>
          let l := fst (trimLeftSpace l) in
          if isEmpty l then Some (Err errDictionaryNotTerminated) else
          match parseObjectWith (arrayLoop fuel) (dictLoop fuel) l with
          | None => None
          | Some (Err e, _) => Some (Err e)
          | Some (Panic, _) => Some Panic
          | Some (Ok obj, l) =>
              match Insert d key obj with
              | None => Some (Err errDictionaryDuplicateKey)
              | Some d =>
                  if isEmpty l then Some (Err errDictionaryNotTerminated) else
                  let l := fst (trimLeftSpace l) in
                  if isEmpty l then Some (Err errDictionaryNotTerminated) else
                  dictLoop fuel l d
              end
          end
      end.
Proof. reflexivity. Qed.

Lemma loops_step (fuel : nat) :
  below (arrayLoop fuel) (arrayLoop (S fuel))
  /\ below (dictLoop fuel) (dictLoop (S fuel)).
Proof.
  induction fuel as [|fuel [IHa IHd]].
  - split; intros l a r H; discriminate H.
  - split; intros l a r.
    + rewrite (arrayLoop_S (S fuel)), (arrayLoop_S fuel).
      destruct (HasPrefix l "]"); [auto|].
      destruct (parseObjectWith (arrayLoop fuel) (dictLoop fuel) l)
        as [[o l']|] eqn:E; [|discriminate].
      rewrite (parseObjectWith_below _ _ _ _ IHa IHd _ _ E).
      destruct o; auto. cbv zeta.
      destruct (isEmpty l'); auto.
      destruct (isEmpty (fst (trimLeftSpace l'))); auto.
    + rewrite (dictLoop_S (S fuel)), (dictLoop_S fuel).
      destruct (HasPrefix l ">>"); [auto|].
      destruct (parseName l) as [[key| |] l0]; auto. cbv zeta.
      destruct (isEmpty (fst (trimLeftSpace l0))); auto.
      destruct (parseObjectWith (arrayLoop fuel) (dictLoop fuel) _)
        as [[o l']|] eqn:E; [|discriminate].
      rewrite (parseObjectWith_below _ _ _ _ IHa IHd _ _ E).
      destruct o; auto.
      destruct (Insert a key a0); auto.
      destruct (isEmpty l'); auto.
      destruct (isEmpty (fst (trimLeftSpace l'))); auto.
Qed.

Lemma loops_more (fuel k : nat) :
  below (arrayLoop fuel) (arrayLoop (k + fuel))
  /\ below (dictLoop fuel) (dictLoop (k + fuel)).
Proof.
  induction k as [|k [IHa IHd]]; [split; intros l a r H; exact H|].
  destruct (loops_step (k + fuel)) as [Sa Sd].
  split; intros l a r H; [apply Sa, IHa, H | apply Sd, IHd, H].
Qed.

(** A call that returned keeps its result with more fuel. *)
Lemma more_fuel_same_result (fuel fuel' : nat) (line : string) :
  (fuel <= fuel')%nat ->
  (forall r, parseObject fuel line = Some r ->
             parseObject fuel' line = Some r)
  /\ (forall r, parseArray fuel line = Some r ->
                parseArray fuel' line = Some r)
  /\ (forall r, parseDict fuel line = Some r ->
                parseDict fuel' line = Some r).
Proof.
  intro Hle. replace fuel' with ((fuel' - fuel) + fuel)%nat by lia.
  destruct (loops_more fuel (fuel' - fuel)) as [Ma Md].
  split; [|split]; intros r H.
  - exact (parseObjectWith_below _ _ _ _ Ma Md _ _ H).
  - exact (parseArrayWith_below _ _ Ma _ _ H).
  - exact (parseDictWith_below _ _ Md _ _ H).
Qed.

(** ** [parseNumericOrIndRef]: the lookahead for an indirect reference *)

Section Lookahead.

Variables (t1 t2 ws1 ws2 : string) (n1 n2 : Z).
Hypothesis Ht1 : strconv.Atoi t1 = Ok n1.
Hypothesis Ht2 : strconv.Atoi t2 = Ok n2.
Hypothesis Hws1 : allSpace ws1 = true.
Hypothesis Hws2 : allSpace ws2 = true.
Hypothesis Hne1 : ws1 <> "".
Hypothesis Hne2 : ws2 <> "".

(** Two integer tokens, each followed by whitespace: the parser gets as far
    as the test for the third component, parse.go:500-519. *)
Lemma parseNumericOrIndRef_third (tail : string) :
  trimmed tail = true ->
  let line := t1 ++ ws1 ++ t2 ++ ws2 ++ tail in
  parseNumericOrIndRef line =
    match tail with
    | EmptyString => (Ok (PDFInteger n1), line)
    | String c _ =>
        if Ascii.eqb c "R"%char
        then (Ok (PDFIndirectRef n1 n2), forwardParseBuf tail 1)
        else (Ok (PDFInteger n1), ws1 ++ t2 ++ ws2 ++ tail)
    end.
Proof.
  intros Htail line. subst line.
  destruct (Atoi_token _ _ Ht1) as [Hp1 Hn1].
  destruct (Atoi_token _ _ Ht2) as [Hp2 Hn2].
  destruct ws1 as [|w1 r1]; [congruence|].
  destruct ws2 as [|w2 r2]; [congruence|].
  cbn [allSpace] in Hws1, Hws2.
  apply andb_prop in Hws1. destruct Hws1 as [Hw1 Hr1].
  apply andb_prop in Hws2. destruct Hws2 as [Hw2 Hr2].
  cbn [append].
  assert (Hs1 : IsSpace w1 || mem w1 "/<([]>" = true) by now rewrite Hw1.
  assert (Hs2 : IsSpace w2 || mem w2 "/<([]>" = true) by now rewrite Hw2.
  unfold parseNumericOrIndRef.
  rewrite isEmpty_app_cons.
  rewrite (position_token _ _ _ _ Hp1 Hs1).
  assert (Hl1 : (0 <? len t1)%nat = true).
  { destruct t1; [congruence | reflexivity]. }
  assert (Hz1 : (len t1 =? 0)%nat = false).
  { destruct t1; [congruence | reflexivity]. }
  rewrite Hl1, Hz1, take_app, drop_app, Ht1, at_app.
  cbn [orElse option_map]. rewrite (space_not_delimiter _ Hw1).
  assert (E1 : fst (trimLeftSpace
                      (String w1 (r1 ++ t2 ++ String w2 (r2 ++ tail))))
               = t2 ++ String w2 (r2 ++ tail)).
  { apply (trimLeftSpace_app (String w1 r1)).
    - cbn [allSpace]. now rewrite Hw1, Hr1.
    - now apply (plain_trimmed "/<([]>"). }
  rewrite E1, isEmpty_app_cons.
  rewrite (position_token _ _ _ _ Hp2 Hs2).
  assert (Hl2 : (0 <? len t2)%nat = true).
  { destruct t2; [congruence | reflexivity]. }
  assert (Hz2 : (len t2 =? 0)%nat = false).
  { destruct t2; [congruence | reflexivity]. }
  rewrite Hl2, Hz2, take_app, drop_app, Ht2, at_app.
  cbn [orElse option_map]. rewrite (space_not_delimiter _ Hw2).
  assert (E2 : fst (trimLeftSpace (String w2 (r2 ++ tail))) = tail).
  { apply (trimLeftSpace_app (String w2 r2)); [|exact Htail].
    cbn [allSpace]. now rewrite Hw2, Hr2. }
  rewrite E2.
  destruct tail as [|c rest]; reflexivity.
Qed.

End Lookahead.

Lemma append_empty (s : string) : s ++ "" = s.
Proof. induction s as [|c s IH]; simpl; [reflexivity | now rewrite IH]. Qed.

(** C1, as the claim states it, fails: the third token [Rx] is not [R], and
    the parser still commits the indirect reference, leaving [x] behind. *)
Lemma indirect_reference_third_token_Rx :
  parseNumericOrIndRef "123 0 Rx" = (Ok (PDFIndirectRef 123 0), "x")
  /\ fst (parseNumericOrIndRef "123 0 Rx") <> Ok (PDFInteger 123).
Proof. split; [reflexivity | discriminate]. Qed.

(** C1 (amended).  For a buffer made of an integer token, whitespace, a
    second integer token, whitespace and then a byte [c] that is not
    whitespace, followed by anything: [parseNumericOrIndRef] commits
    [IndirectReference(first, second)] and leaves the cursor just past [c]
    exactly when [c] is the byte [R], whatever follows it; for any other [c]
    it yields [Integer(first)] with the cursor right after the first token.
    When nothing follows the second whitespace the value is [Integer(first)].
    [parseObject] on [123 0 R] yields [IndirectReference(123, 0)] with an
    empty remainder. *)
Theorem indirect_reference_iff_first_byte_R
  (t1 ws1 t2 ws2 rest : string) (c : ascii) (n1 n2 : Z)
  (Ht1 : strconv.Atoi t1 = Ok n1)
  (Ht2 : strconv.Atoi t2 = Ok n2)
  (Hws1 : allSpace ws1 = true) (Hne1 : isEmpty ws1 = false)
  (Hws2 : allSpace ws2 = true) (Hne2 : isEmpty ws2 = false)
  (Hc : IsSpace c = false) :
  parseNumericOrIndRef (t1 ++ ws1 ++ t2 ++ ws2 ++ String c rest)
  = (if Ascii.eqb c "R"%char
     then (Ok (PDFIndirectRef n1 n2), rest)
     else (Ok (PDFInteger n1), ws1 ++ t2 ++ ws2 ++ String c rest))
  /\ fst (parseNumericOrIndRef (t1 ++ ws1 ++ t2 ++ ws2)) = Ok (PDFInteger n1)
  /\ forall fuel : nat,
       parseObject fuel "123 0 R" = Some (Ok (PDFIndirectRef 123 0), "").
Proof.
  assert (N1 : ws1 <> "") by (destruct ws1; [discriminate | congruence]).
  assert (N2 : ws2 <> "") by (destruct ws2; [discriminate | congruence]).
  split; [|split].
  - rewrite (parseNumericOrIndRef_third t1 t2 ws1 ws2 n1 n2
               Ht1 Ht2 Hws1 Hws2 N1 N2 (String c rest)).
    + destruct (Ascii.eqb c "R"); [|reflexivity].
      f_equal. exact (forwardParseBuf_app (String c "") rest).
    + simpl. now rewrite Hc.
  - pose proof (parseNumericOrIndRef_third t1 t2 ws1 ws2 n1 n2
                  Ht1 Ht2 Hws1 Hws2 N1 N2 "" eq_refl) as H.
    cbv zeta in H. rewrite append_empty in H. now rewrite H.
  - intro fuel. reflexivity.
Qed.

Lemma indirect_reference_iff_first_byte_R_witness :
  strconv.Atoi "123" = Ok 123 /\ strconv.Atoi "0" = Ok 0 /\
  allSpace " " = true /\ isEmpty " " = false /\
  IsSpace "R"%char = false /\
  parseNumericOrIndRef ("123" ++ " " ++ "0" ++ " " ++ String "R"%char "")
  = (Ok (PDFIndirectRef 123 0), "").
Proof.
  do 5 (split; [reflexivity|]).
  exact (proj1 (indirect_reference_iff_first_byte_R
                  "123" " " "0" " " "" "R"%char 123 0
                  eq_refl eq_refl eq_refl eq_refl eq_refl eq_refl eq_refl)).
Defined.

(** C2, at the failing input: after [123 0 ] the lookahead finds only
    whitespace, and the return of parse.go:503-507 hands back [Integer(123)]
    without moving the caller's cursor; the claim has the remainder [ 0 ].
    [parseObject] passes the unmoved buffer on. *)
Theorem trailing_space_leaves_cursor_unmoved :
  parseNumericOrIndRef "123 0 " = (Ok (PDFInteger 123), "123 0 ")
  /\ forall fuel : nat,
       parseObject fuel "123 0 " = Some (Ok (PDFInteger 123), "123 0 ").
Proof. split; [reflexivity | intro fuel; reflexivity]. Qed.

(** The same path for every pair of integer tokens: nothing but whitespace
    after the second one, and the buffer comes back whole. *)
Lemma parseNumericOrIndRef_only_whitespace_after_second
  (t1 ws1 t2 ws2 : string) (n1 n2 : Z) :
  strconv.Atoi t1 = Ok n1 -> strconv.Atoi t2 = Ok n2 ->
  allSpace ws1 = true -> isEmpty ws1 = false ->
  allSpace ws2 = true -> isEmpty ws2 = false ->
  parseNumericOrIndRef (t1 ++ ws1 ++ t2 ++ ws2)
  = (Ok (PDFInteger n1), t1 ++ ws1 ++ t2 ++ ws2).
Proof.
  intros Ht1 Ht2 Hws1 Hne1 Hws2 Hne2.
  assert (N1 : ws1 <> "") by (destruct ws1; [discriminate | congruence]).
  assert (N2 : ws2 <> "") by (destruct ws2; [discriminate | congruence]).
  pose proof (parseNumericOrIndRef_third t1 t2 ws1 ws2 n1 n2
                Ht1 Ht2 Hws1 Hws2 N1 N2 "" eq_refl) as H.
  cbv zeta in H. now rewrite append_empty in H.
Qed.

(** A caller that loops on the cursor never gets past such a buffer: the
    array [[123 0 ] followed by nothing keeps parsing the same element. *)
Lemma arrayLoop_stuck (fuel : nat) (arr : list PDFObject) :
  arrayLoop fuel "123 0 " arr = None.
Proof.
  revert arr. induction fuel as [|fuel IH]; intro arr; [reflexivity|].
  change (arrayLoop (S fuel) "123 0 " arr)
    with (arrayLoop fuel "123 0 " (arr ++ [PDFInteger 123])).
  apply IH.
Qed.

Lemma parseArray_never_returns (fuel : nat) :
  parseArray fuel "[123 0 " = None.
Proof.
  change (parseArray fuel "[123 0 ")
    with (match arrayLoop fuel "123 0 " [] with
          | None => None
          | Some (Err e) => Some (Err e, "[123 0 ")
          | Some Panic => Some (Panic, "[123 0 ")
          | Some (Ok (arr, l)) => Some (Ok arr, forwardParseBuf l 1)
          end).
  now rewrite arrayLoop_stuck.
Qed.

(** ** Arrays and dictionaries with nothing between the delimiters *)

Lemma dictLoop_end (fuel : nat) (rest : string) (d : dict) :
  dictLoop (S fuel) (">>" ++ rest) d = Some (Ok (d, ">>" ++ rest)).
Proof. reflexivity. Qed.

Lemma arrayLoop_end (fuel : nat) (rest : string) (arr : list PDFObject) :
  arrayLoop (S fuel) ("]" ++ rest) arr = Some (Ok (arr, "]" ++ rest)).
Proof. reflexivity. Qed.

Lemma parseDict_whitespace_only (fuel : nat) (ws rest : string) :
  allSpace ws = true ->
  parseDict (S fuel) ("<<" ++ ws ++ ">>" ++ rest) = Some (Ok [], rest).
Proof.
  intro Hws. unfold parseDict, parseDictWith.
  assert (L : (len ("<<" ++ ws ++ ">>" ++ rest) <? 4)%nat = false).
  { apply Nat.ltb_ge. rewrite !len_app. cbn [len String.length]. lia. }
  rewrite L, (forwardParseBuf_app "<<").
  rewrite (trimLeftSpace_app ws (">>" ++ rest) Hws eq_refl).
  rewrite dictLoop_end, (forwardParseBuf_app ">>").
  reflexivity.
Qed.

(** C7.  [parseObject] on [<<], then whitespace only, then [>>] returns no
    error: it yields the empty dictionary and leaves the cursor right behind
    the closing [>>], so with nothing left when the buffer ends there.  One
    unit of fuel is enough. *)
Theorem parseObject_dict_whitespace_only (fuel : nat) (ws rest : string)
  (Hws : allSpace ws = true) :
  parseObject (S fuel) ("<<" ++ ws ++ ">>" ++ rest)
  = Some (Ok (PDFDict []), rest).
Proof.
  pose proof (parseDict_whitespace_only fuel ws rest Hws) as D.
  unfold parseDict in D.
  unfold parseObject, parseObjectWith.
  rewrite (trimLeftSpace_trimmed ("<<" ++ ws ++ ">>" ++ rest) eq_refl).
  cbn [fst].
  change (isEmpty ("<<" ++ ws ++ ">>" ++ rest)) with false.
  change (at_ ("<<" ++ ws ++ ">>" ++ rest) 0) with (Some "<"%char).
  change (at_ ("<<" ++ ws ++ ">>" ++ rest) 1) with (Some "<"%char).
  change (len ("<<" ++ ws ++ ">>" ++ rest) <? 2)%nat with false.
  cbv iota beta.
  change (Ascii.eqb "<" "[") with false.
  change (Ascii.eqb "<" "/") with false.
  change (Ascii.eqb "<" "<") with true.
  cbv iota. rewrite D. reflexivity.
Qed.

Lemma parseObject_dict_whitespace_only_witness :
  allSpace (String (ascii_of_nat 10) "") = true /\
  parseObject 1 ("<<" ++ String (ascii_of_nat 10) "" ++ ">>" ++ "")
  = Some (Ok (PDFDict []), "").
Proof.
  split; [reflexivity|].
  exact (parseObject_dict_whitespace_only
           0 (String (ascii_of_nat 10) "") "" eq_refl).
Defined.

Lemma parseArray_empty_brackets (fuel : nat) (ws rest : string) :
  allSpace ws = true ->
  parseArray (S fuel) ("[" ++ ws ++ "]" ++ rest) = Some (Ok [], rest).
Proof.
  intro Hws. unfold parseArray, parseArrayWith.
  assert (L : (len ("[" ++ ws ++ "]" ++ rest) =? 1)%nat = false).
  { apply Nat.eqb_neq. rewrite !len_app. cbn [len String.length]. lia. }
  rewrite L, (forwardParseBuf_app "[").
  rewrite (trimLeftSpace_app ws ("]" ++ rest) Hws eq_refl).
  rewrite arrayLoop_end, (forwardParseBuf_app "]").
  reflexivity.
Qed.

Lemma parseArray_only_whitespace (fuel : nat) (ws : string) :
  allSpace ws = true ->
  parseArray fuel ("[" ++ ws) = Some (Err errArrayNotTerminated, "[" ++ ws).
Proof.
  intro Hws. unfold parseArray, parseArrayWith.
  destruct ws as [|c ws]; [reflexivity|].
  rewrite (forwardParseBuf_app "[").
  rewrite (trimLeftSpace_allSpace _ Hws).
  reflexivity.
Qed.

Lemma parseArray_no_bracket (fuel : nat) (s : string) :
  isEmpty s = false -> HasPrefix s "[" = false ->
  parseArray fuel s = Some (Err errArrayCorrupt, s).
Proof.
  intros Hs Hp. unfold parseArray, parseArrayWith.
  now rewrite Hs, Hp.
Qed.

(** C6, as the claim states it, fails: on [[ ]] the array parser returns the
    empty array and an empty remainder, with any fuel that lets the loop
    look at the closing bracket; it never fails there. *)
Lemma parseArray_blank_interior_succeeds :
  parseArray 0 "[ ]" = None
  /\ forall fuel : nat, parseArray (S fuel) "[ ]" = Some (Ok [], "").
Proof. split; [reflexivity | intro fuel; reflexivity]. Qed.

(** C6 (amended).  [parseArray] on an opening bracket, whitespace only and a
    closing bracket, as in [[ ]], succeeds with the empty array and the
    cursor behind the closing bracket.  On an opening bracket followed by
    nothing or by whitespace only it fails with [UnterminatedArray], and on a
    buffer that is not empty and does not start with an opening bracket it
    fails with [CorruptArray]. *)
Theorem parseArray_edge_cases (fuel : nat) (ws rest s : string)
  (Hws : allSpace ws = true)
  (Hs : isEmpty s = false) (Hp : HasPrefix s "[" = false) :
  parseArray (S fuel) ("[" ++ ws ++ "]" ++ rest) = Some (Ok [], rest)
  /\ parseArray (S fuel) "[ ]" = Some (Ok [], "")
  /\ parseArray fuel "[" = Some (Err errArrayNotTerminated, "[")
  /\ parseArray fuel ("[" ++ ws) = Some (Err errArrayNotTerminated, "[" ++ ws)
  /\ parseArray fuel s = Some (Err errArrayCorrupt, s).
Proof.
  split; [now apply parseArray_empty_brackets|].
  split; [reflexivity|].
  split; [reflexivity|].
  split; [now apply parseArray_only_whitespace|].
  now apply parseArray_no_bracket.
Qed.

Lemma parseArray_edge_cases_witness :
  allSpace "  " = true /\ isEmpty "(x)" = false /\
  HasPrefix "(x)" "[" = false /\
  parseArray 1 ("[" ++ "  " ++ "]" ++ "") = Some (Ok [], "") /\
  parseArray 1 ("[" ++ "  ")
  = Some (Err errArrayNotTerminated, "[" ++ "  ") /\
  parseArray 1 "(x)" = Some (Err errArrayCorrupt, "(x)").
Proof.
  pose proof (parseArray_edge_cases 0 "  " "" "(x)" eq_refl eq_refl eq_refl)
    as [A _].
  pose proof (parseArray_edge_cases 1 "  " "" "(x)" eq_refl eq_refl eq_refl)
    as [_ [_ [_ [B C]]]].
  do 3 (split; [reflexivity|]).
  split; [exact A | split; [exact B | exact C]].
Defined.

(** ** Empty input *)

Lemma parseObject_only_whitespace (fuel : nat) (ws : string) :
  allSpace ws = true ->
  parseObject fuel ws = Some (Err errBufNotAvailable, ws).
Proof.
  intro Hws. unfold parseObject, parseObjectWith.
  rewrite (trimLeftSpace_allSpace _ Hws).
  now destruct ws.
Qed.

(** C9, as the claim states it, fails: on the empty buffer [parseArray]
    returns [errNoArray] and [parseDict] returns [errNoDictionary], two
    error values of their own, not [errBufNotAvailable]. *)
Lemma parseArray_parseDict_empty_own_error :
  (forall fuel : nat, parseArray fuel "" = Some (Err errNoArray, ""))
  /\ (forall fuel : nat, parseDict fuel "" = Some (Err errNoDictionary, ""))
  /\ errNoArray <> errBufNotAvailable
  /\ errNoDictionary <> errBufNotAvailable.
Proof. repeat split; intros; discriminate. Qed.

(** C9 (amended).  On the empty buffer [parseObject], [parseName],
    [parseStringLiteral], [parseHexLiteral] and [parseNumericOrIndRef] fail
    with [NoBuffer] ([errBufNotAvailable]), and so does [parseObject] on a
    buffer that holds whitespace only; [parseArray] fails with its own
    [errNoArray] and [parseDict] with its own [errNoDictionary]. *)
Theorem empty_buffer_errors (fuel : nat) (ws : string)
  (Hws : allSpace ws = true) :
  parseObject fuel "" = Some (Err errBufNotAvailable, "")
  /\ parseObject fuel ws = Some (Err errBufNotAvailable, ws)
  /\ parseName "" = (Err errBufNotAvailable, "")
  /\ parseStringLiteral "" = (Err errBufNotAvailable, "")
  /\ parseHexLiteral "" = (Err errBufNotAvailable, "")
  /\ parseNumericOrIndRef "" = (Err errBufNotAvailable, "")
  /\ parseArray fuel "" = Some (Err errNoArray, "")
  /\ parseDict fuel "" = Some (Err errNoDictionary, "").
Proof.
  split; [reflexivity|].
  split; [now apply parseObject_only_whitespace|].
  repeat split.
Qed.

Lemma empty_buffer_errors_witness :
  allSpace "   " = true /\
  parseObject 0 "   " = Some (Err errBufNotAvailable, "   ").
Proof.
  split; [reflexivity|].
  exact (proj1 (proj2 (empty_buffer_errors 0 "   " eq_refl))).
Defined.

(** ** Names *)

Section NameFacts.

Local Open Scope nat_scope.

(** A name body of at least one character is cut at the first whitespace or
    delimiter, which stays in the remainder. *)
Lemma parseName_cut (body rest : string) (c : ascii) :
  plain "/<>()[]" body = true -> isEmpty body = false ->
  IsSpace c || mem c "/<>()[]" = true ->
  parseName ("/" ++ body ++ String c rest) = (Ok body, String c rest).
Proof.
  intros Hb Hne Hc. unfold parseName.
  assert (L : (len ("/" ++ body ++ String c rest) <? 2) = false).
  { apply Nat.ltb_ge. rewrite !len_app. cbn [len String.length]. lia. }
  rewrite L, (forwardParseBuf_app "/").
  rewrite (position_token _ _ _ _ Hb Hc).
  assert (P : (0 <? len body) = true) by (now destruct body).
  rewrite P, take_app, drop_app. reflexivity.
Qed.

(** The empty name before whitespace: the test of [l[0]] at parse.go:317
    catches it. *)
Lemma parseName_space_first (rest : string) (c : ascii) :
  IsSpace c = true ->
  parseName ("/" ++ String c rest) = (Ok "", String c rest).
Proof.
  intro Hc. unfold parseName.
  change (forwardParseBuf ("/" ++ String c rest) 1)
    with (forwardParseBuf ("/" ++ String c rest) (len "/")).
  rewrite forwardParseBuf_app.
  cbn -[IsSpace mem]. rewrite Hc. reflexivity.
Qed.

(** The empty name before a delimiter: the scan stops at offset 0, the
    test of parse.go:317 is false, and the branch for nothing to cut off
    takes the rest of the buffer as the name. *)
Lemma parseName_delimiter_first (rest : string) (c : ascii) :
  IsSpace c = false -> mem c "/<>()[]" = true ->
  parseName ("/" ++ String c rest) = (Ok (String c rest), "").
Proof.
  intros Hs Hc. unfold parseName.
  change (forwardParseBuf ("/" ++ String c rest) 1)
    with (forwardParseBuf ("/" ++ String c rest) (len "/")).
  rewrite forwardParseBuf_app.
  cbn -[IsSpace mem]. rewrite Hs, Hc. reflexivity.
Qed.

End NameFacts.

(** C8, at the failing input: on a slash followed at once by an opening
    parenthesis [parseName] returns the name made of that parenthesis and an
    empty remainder, where the claim has the empty name and the parenthesis
    left in the buffer; whatever follows the delimiter goes into the name as
    well. *)
Theorem parseName_swallows_leading_delimiter :
  parseName "/(" = (Ok "(", "")
  /\ parseName "/(abc) /Next" = (Ok "(abc) /Next", "").
Proof. split; reflexivity. Qed.

(** ** A failed parse leaves the buffer alone *)

Ltac split_cases :=
  repeat match goal with
         | |- context [if ?b then _ else _] => destruct b
         | |- context [match ?x with _ => _ end] => destruct x
         end.

Ltac error_keeps_line :=
  cbv zeta; split_cases;
  let H := fresh in
  intro H; solve [ discriminate H | inversion H; reflexivity ].

Section Atomic.

Variables (line line' : string) (e : error).

Lemma parseName_atomic :
  parseName line = (Err e, line') -> line' = line.
Proof. unfold parseName. error_keeps_line. Qed.

Lemma parseStringLiteral_atomic :
  parseStringLiteral line = (Err e, line') -> line' = line.
Proof. unfold parseStringLiteral. error_keeps_line. Qed.

Lemma parseHexLiteral_atomic :
  parseHexLiteral line = (Err e, line') -> line' = line.
Proof. unfold parseHexLiteral. error_keeps_line. Qed.

Lemma parseNumericOrIndRef_atomic :
  parseNumericOrIndRef line = (Err e, line') -> line' = line.
Proof. unfold parseNumericOrIndRef. error_keeps_line. Qed.

Lemma parseObjectAttributes_atomic :
  parseObjectAttributes line = (Err e, line') -> line' = line.
Proof. unfold parseObjectAttributes. error_keeps_line. Qed.

Lemma parseArrayWith_atomic loop :
  parseArrayWith loop line = Some (Err e, line') -> line' = line.
Proof. unfold parseArrayWith. error_keeps_line. Qed.

Lemma parseDictWith_atomic loop :
  parseDictWith loop line = Some (Err e, line') -> line' = line.
Proof. unfold parseDictWith. error_keeps_line. Qed.

Lemma parseObjectWith_atomic aloop dloop :
  parseObjectWith aloop dloop line = Some (Err e, line') -> line' = line.
Proof. unfold parseObjectWith. error_keeps_line. Qed.

End Atomic.

(** C10.  Whenever one of the parsers that take the buffer by reference
    ([parseObject], [parseArray], [parseDict], [parseName],
    [parseStringLiteral], [parseHexLiteral], [parseNumericOrIndRef],
    [parseObjectAttributes]) returns an error, the caller's buffer is the one
    that was passed in. *)
Theorem failed_parse_keeps_buffer
  (fuel : nat) (line line' : string) (e : error)
  (H : parseObject fuel line = Some (Err e, line')
       \/ parseArray fuel line = Some (Err e, line')
       \/ parseDict fuel line = Some (Err e, line')
       \/ parseName line = (Err e, line')
       \/ parseStringLiteral line = (Err e, line')
       \/ parseHexLiteral line = (Err e, line')
       \/ parseNumericOrIndRef line = (Err e, line')
       \/ parseObjectAttributes line = (Err e, line')) :
  line' = line.
Proof.
  destruct H as [H|[H|[H|[H|[H|[H|[H|H]]]]]]].
  - exact (parseObjectWith_atomic _ _ _ _ _ H).
  - exact (parseArrayWith_atomic _ _ _ _ H).
  - exact (parseDictWith_atomic _ _ _ _ H).
  - exact (parseName_atomic _ _ _ H).
  - exact (parseStringLiteral_atomic _ _ _ H).
  - exact (parseHexLiteral_atomic _ _ _ H).
  - exact (parseNumericOrIndRef_atomic _ _ _ H).
  - exact (parseObjectAttributes_atomic _ _ _ H).
Qed.

Lemma failed_parse_keeps_buffer_witness :
  parseObject 6 "[1 [2 <</K (v>>]]" =
    Some (Err errStringLiteralCorrupt, "[1 [2 <</K (v>>]]")
  /\ "[1 [2 <</K (v>>]]" = "[1 [2 <</K (v>>]]".
Proof.
  split; [reflexivity|].
  apply (failed_parse_keeps_buffer 6 "[1 [2 <</K (v>>]]" _
           errStringLiteralCorrupt).
  left. reflexivity.
Defined.

(** ** The loops of [parseXRefStreamDict] *)

Section XRefLoops.

Local Open Scope nat_scope.

Lemma countLoop_spec (n : nat) (j startObj : Z) (objs : list Z) :
  countLoop n j startObj objs
  = (objs ++ map (fun k => GoInt.add startObj (j + Z.of_nat k)%Z)
                 (seq 0 n))%list.
Proof.
  revert j objs. induction n as [|n IH]; intros j objs.
  - simpl. now rewrite app_nil_r.
  - cbn [countLoop]. rewrite IH, <- app_assoc. f_equal.
    cbn [seq map app]. rewrite Z.add_0_r. f_equal.
    rewrite <- seq_shift, map_map. apply map_ext. intro k.
    f_equal. lia.
Qed.

Lemma countLoop_expand (startObj count : Z) (objs : list Z) :
  countLoop (Z.to_nat count) 0 startObj objs
  = (objs ++ expand (startObj, count))%list.
Proof. now rewrite countLoop_spec. Qed.

Lemma sizeLoop_spec (n : nat) (i : Z) (objs : list Z) :
  sizeLoop n i objs
  = (objs ++ map (fun k => (i + Z.of_nat k)%Z) (seq 0 n))%list.
Proof.
  revert i objs. induction n as [|n IH]; intros i objs.
  - simpl. now rewrite app_nil_r.
  - cbn [sizeLoop]. rewrite IH, <- app_assoc. f_equal.
    cbn [seq map app]. rewrite Z.add_0_r. f_equal.
    rewrite <- seq_shift, map_map. apply map_ext. intro k. lia.
Qed.

(** Induction over a list two elements at a time. *)
Lemma pairwise_ind (A : Type) (P : list A -> Prop) :
  P [] -> (forall a, P [a]) ->
  (forall a b r, P r -> P (a :: b :: r)) ->
  forall l, P l.
Proof.
  intros H0 H1 H2 l.
  enough (P l /\ forall a, P (a :: l)) by tauto.
  induction l as [|b l [IH1 IH2]]; split; auto.
Qed.

Lemma half_step (n : nat) : S (S n) / 2 = S (n / 2).
Proof.
  change (S (S n)) with (2 + n).
  replace (2 + n) with (n + 1 * 2) by lia.
  rewrite Nat.div_add by discriminate. lia.
Qed.

(** The outer loop reads the array pair by pair and stops at the first
    element of a pair that is not an integer. *)
Lemma indexLoop_pairs (arr pre : list PDFObject) (objs : list Z) (i : nat) :
  List.length pre = i * 2 ->
  indexLoop (List.length arr / 2) i (pre ++ arr) objs
  = match indexPairs arr with
    | Some ps => Ok (objs ++ flat_map expand ps)%list
    | None => Err errXrefStreamCorruptIndex
    end.
Proof.
  revert pre objs i.
  induction arr as [|a|a b r IH] using pairwise_ind; intros pre objs i Hpre.
  - simpl. now rewrite app_nil_r.
  - simpl. now rewrite app_nil_r.
  - cbn [List.length]. rewrite half_step. cbn [indexLoop].
    rewrite nth_error_app2 by lia.
    replace (i * 2 - List.length pre) with 0 by lia.
    cbn [nth_error].
    replace (nth_error (pre ++ a :: b :: r) (i * 2 + 1)) with (Some b).
    2:{ rewrite nth_error_app2 by lia.
        replace (i * 2 + 1 - List.length pre) with 1 by lia.
        reflexivity. }
    cbn [indexPairs].
    destruct a; try reflexivity.
    destruct b; try reflexivity.
    replace (pre ++ PDFInteger i0 :: PDFInteger i1 :: r)%list
      with ((pre ++ [PDFInteger i0; PDFInteger i1]) ++ r)%list
      by now rewrite <- app_assoc.
    rewrite IH by (rewrite length_app; cbn [List.length]; lia).
    destruct (indexPairs r) as [ps|]; [|reflexivity].
    rewrite countLoop_expand. cbn [flat_map].
    now rewrite app_assoc.
Qed.

Lemma odd_length_test_never_fires (n : nat) : (1 <? n mod 2) = false.
Proof.
  apply Nat.ltb_ge.
  pose proof (Nat.mod_upper_bound n 2 ltac:(discriminate)). lia.
Qed.

Lemma xrefObjects_index (size : Z) (indArr : list PDFObject) :
  xrefObjects size (Some indArr)
  = match indexPairs indArr with
    | Some ps => Ok (flat_map expand ps)
    | None => Err errXrefStreamCorruptIndex
    end.
Proof.
  unfold xrefObjects. rewrite odd_length_test_never_fires.
  exact (indexLoop_pairs indArr [] [] 0 eq_refl).
Qed.

Lemma xrefObjects_size (size : Z) :
  xrefObjects size None = Ok (map Z.of_nat (seq 0 (Z.to_nat size))).
Proof.
  unfold xrefObjects. rewrite sizeLoop_spec. reflexivity.
Qed.

Lemma length_expand (p : Z * Z) :
  Z.of_nat (List.length (expand p)) = Z.max 0 (snd p).
Proof. unfold expand. rewrite length_map, length_seq. lia. Qed.

Lemma length_flat_map_expand (ps : list (Z * Z)) :
  Z.of_nat (List.length (flat_map expand ps)) = sumPositiveCounts ps.
Proof.
  induction ps as [|p ps IH]; [reflexivity|].
  cbn [flat_map sumPositiveCounts fold_right].
  rewrite length_app, Nat2Z.inj_add, length_expand.
  unfold sumPositiveCounts in IH.
  now rewrite IH.
Qed.

Lemma sumPositiveCounts_nonneg (ps : list (Z * Z)) :
  Forall (fun p => (0 <= snd p)%Z) ps -> sumPositiveCounts ps = sumCounts ps.
Proof.
  induction 1 as [|p ps Hp _ IH]; [reflexivity|].
  cbn [sumPositiveCounts sumCounts fold_right].
  unfold sumPositiveCounts, sumCounts in IH. rewrite IH. lia.
Qed.

(** Without overflow the numbers of a pair are the plain sums. *)
Lemma expand_in_range (start count : Z) :
  GoInt.inRange start = true -> GoInt.inRange (start + count) = true ->
  expand (start, count)
  = map (fun k => (start + Z.of_nat k)%Z) (seq 0 (Z.to_nat count)).
Proof.
  intros Hs Hc. unfold expand. apply map_ext_in. intros k Hk.
  apply in_seq in Hk. cbn [fst]. unfold GoInt.add.
  apply wrap_inRange.
  unfold GoInt.inRange in *.
  apply andb_prop in Hs. destruct Hs as [Hs1 Hs2].
  apply andb_prop in Hc. destruct Hc as [Hc1 Hc2].
  apply Z.leb_le in Hs1, Hs2, Hc1, Hc2.
  apply andb_true_intro. split; apply Z.leb_le; lia.
Qed.

End XRefLoops.

(** ** [parseXRefStreamDict] *)

(** C3, as the claim states it, fails: with the pair [(5, -2)] the descriptor
    is built, the pair contributes nothing, and the length 0 of the list is
    not the sum -2 of the counts. *)
Lemma index_negative_count_length :
  objectNumbers
    (parseXRefStreamDict
       (streamDict (Some [PDFInteger 5; PDFInteger (-2)]) (Some widths121)))
  = Some []
  /\ indexPairs [PDFInteger 5; PDFInteger (-2)] = Some [(5, -2)]
  /\ Z.of_nat (List.length (@nil Z)) <> sumCounts [(5, -2)].
Proof. repeat split. discriminate. Qed.

(** C3 (amended).  In a descriptor built by [parseXRefStreamDict]: when an
    [Index] entry is present, each pair [(start, count)] contributes, in
    order, the numbers [start, start+1, ..., start+count-1], the sums taken
    in Go's [int], and nothing when [count] is not positive, so
    [Index=[2,3,10,1]] gives [[2,3,4,10]]; the length of the list is the sum
    of the positive counts, which is the sum of all counts when none is
    negative.  When no [Index] entry is present the list is [0 .. Size-1],
    empty when [Size] is not positive, and its length is [Size] when [Size]
    is not negative. *)
Theorem xref_object_numbers
  (d : PDFStreamDict.t) (x : PDFXRefStreamDict.t)
  (H : parseXRefStreamDict d = Ok x) :
  let objs := PDFXRefStreamDict.Objects x in
  let size := PDFXRefStreamDict.Size x in
  match PDFStreamDict.Index d with
  | Some indArr =>
      exists ps : list (Z * Z),
        indexPairs indArr = Some ps
        /\ objs = flat_map expand ps
        /\ Z.of_nat (List.length objs) = sumPositiveCounts ps
        /\ (Forall (fun p => 0 <= snd p) ps ->
            Z.of_nat (List.length objs) = sumCounts ps)
  | None =>
      PDFStreamDict.Size d = Some size
      /\ objs = map Z.of_nat (seq 0 (Z.to_nat size))
      /\ Z.of_nat (List.length objs) = Z.max 0 size
      /\ (0 <= size -> Z.of_nat (List.length objs) = size)
  end
  /\ objectNumbers
       (parseXRefStreamDict
          (streamDict (Some [PDFInteger 2; PDFInteger 3;
                             PDFInteger 10; PDFInteger 1])
                      (Some widths121)))
     = Some [2; 3; 4; 10].
Proof.
  intros objs size. split; [|reflexivity].
  unfold parseXRefStreamDict in H.
  destruct (PDFStreamDict.Size d) as [sz|] eqn:HS; [|discriminate].
  destruct (xrefObjects sz (PDFStreamDict.Index d)) as [o| |] eqn:HO;
    try discriminate.
  destruct (xrefWidths (PDFStreamDict.W d)) as [w| |]; try discriminate.
  injection H as <-. cbn in objs, size. subst objs size.
  destruct (PDFStreamDict.Index d) as [indArr|].
  - rewrite xrefObjects_index in HO.
    destruct (indexPairs indArr) as [ps|]; [|discriminate].
    injection HO as <-. exists ps.
    split; [reflexivity|]. split; [reflexivity|].
    split; [apply length_flat_map_expand|].
    intro Hnn. rewrite length_flat_map_expand.
    now apply sumPositiveCounts_nonneg.
  - rewrite xrefObjects_size in HO. injection HO as <-.
    split; [reflexivity|]. split; [reflexivity|].
    rewrite length_map, length_seq. split; lia.
Qed.

Lemma xref_object_numbers_witness :
  parseXRefStreamDict (streamDict None (Some widths121))
  = Ok (PDFXRefStreamDict.Build (streamDict None (Some widths121))
          10 [0; 1; 2; 3; 4; 5; 6; 7; 8; 9] (1, 2, 1) None)
  /\ [0; 1; 2; 3; 4; 5; 6; 7; 8; 9] = map Z.of_nat (seq 0 (Z.to_nat 10))
  /\ Z.of_nat (List.length [0; 1; 2; 3; 4; 5; 6; 7; 8; 9]) = 10.
Proof.
  destruct (xref_object_numbers
              (streamDict None (Some widths121))
              (PDFXRefStreamDict.Build (streamDict None (Some widths121))
                 10 [0; 1; 2; 3; 4; 5; 6; 7; 8; 9] (1, 2, 1) None)
              eq_refl) as [[_ [A [_ B]]] _].
  split; [reflexivity|]. split; [exact A | apply B; discriminate].
Defined.

(** C4, at the failing input: the [Index] array [[2,3,10]] has odd length
    and [parseXRefStreamDict] builds the descriptor from its one pair, where
    the claim has the error [CorruptIndexEntry].  The test of parse.go:648
    compares a remainder modulo 2 with 1 by [>], which holds for no
    length. *)
Theorem odd_length_index_is_accepted :
  parseXRefStreamDict
    (streamDict (Some [PDFInteger 2; PDFInteger 3; PDFInteger 10])
                (Some widths121))
  = Ok (PDFXRefStreamDict.Build
          (streamDict (Some [PDFInteger 2; PDFInteger 3; PDFInteger 10])
                      (Some widths121))
          10 [2; 3; 4] (1, 2, 1) None)
  /\ forall indArr : list PDFObject,
       (1 <? List.length indArr mod 2)%nat = false.
Proof.
  split; [reflexivity|]. intro indArr. apply odd_length_test_never_fires.
Qed.

(** The other half of C4 holds: an element of a pair that is not an integer
    makes the decoder fail with [errXrefStreamCorruptIndex], whatever the
    other entries are, once [Size] is present. *)
Lemma non_integer_in_pair_is_rejected
  (d : PDFStreamDict.t) (size : Z) (indArr : list PDFObject) :
  PDFStreamDict.Size d = Some size ->
  PDFStreamDict.Index d = Some indArr ->
  indexPairs indArr = None ->
  parseXRefStreamDict d = Err errXrefStreamCorruptIndex.
Proof.
  intros HS HI HP. unfold parseXRefStreamDict.
  now rewrite HS, HI, xrefObjects_index, HP.
Qed.

(** C5, as the claim states it, fails: without [Size] the decoder returns
    the error about [Size] and never looks at [W]. *)
Lemma missing_size_comes_first :
  parseXRefStreamDict (PDFStreamDict.Build None None None None)
  = Err (errorsNew ("ParseXRefStreamDict: " ++ quote ++ "Size" ++ quote
                      ++ " not available"))
  /\ parseXRefStreamDict (PDFStreamDict.Build None None None None)
     <> Err errXrefStreamMissingW.
Proof. split; [reflexivity | discriminate]. Qed.

Lemma xrefWidths_invalid (arr : list PDFObject) :
  List.length arr <> 3%nat \/ (exists o, In o arr /\ validWidth o = false) ->
  xrefWidths (Some arr) = Err errXrefStreamCorruptW.
Proof.
  intros [Hlen | [o [Hin Hbad]]].
  - unfold xrefWidths. apply Nat.eqb_neq in Hlen. now rewrite Hlen.
  - unfold xrefWidths.
    destruct (List.length arr =? 3)%nat eqn:E; [|reflexivity].
    apply Nat.eqb_eq in E.
    destruct arr as [|a [|b [|c [|? ?]]]]; try discriminate E.
    cbn [negb width nth_error].
    assert (W : forall p, validWidth p = false ->
                match p with
                | PDFInteger i => if i <? 0 then @Err Z errXrefStreamCorruptW
                                  else Ok i
                | _ => Err errXrefStreamCorruptW
                end = Err errXrefStreamCorruptW).
    { intros p Hp. destruct p; try reflexivity.
      cbn in Hp. apply Z.leb_gt in Hp.
      apply Z.ltb_lt in Hp. now rewrite Hp. }
    assert (V : forall p,
                match p with
                | PDFInteger i => if i <? 0 then @Err Z errXrefStreamCorruptW
                                  else Ok i
                | _ => Err errXrefStreamCorruptW
                end = Err errXrefStreamCorruptW
                \/ exists i, p = PDFInteger i /\ (i <? 0) = false).
    { intro p. destruct p; auto.
      destruct (i <? 0) eqn:Ei; [auto | right; eauto]. }
    destruct Hin as [<-|[<-|[<-|[]]]].
    + now rewrite (W _ Hbad).
    + destruct (V a) as [Ea|[i [-> Ei]]]; [now rewrite Ea|].
      rewrite Ei. now rewrite (W _ Hbad).
    + destruct (V a) as [Ea|[i [-> Ei]]]; [now rewrite Ea|].
      rewrite Ei.
      destruct (V b) as [Eb|[j [-> Ej]]]; [now rewrite Eb|].
      rewrite Ej. now rewrite (W _ Hbad).
Qed.

(** C5 (amended).  Once the [Size] entry is present and the [Index] entry,
    if any, has been read without error, [parseXRefStreamDict] requires a [W]
    entry that is an array of exactly 3 non-negative integers: if [W] is
    absent it fails with [errXrefStreamMissingW]; if [W] has a length other
    than 3, or contains an element that is not an integer or is negative, it
    fails with [errXrefStreamCorruptW]; otherwise it succeeds and the three
    widths are in the descriptor as they stand in [W]. *)
Theorem field_widths_are_validated
  (d : PDFStreamDict.t) (size : Z) (objs : list Z)
  (HS : PDFStreamDict.Size d = Some size)
  (HI : xrefObjects size (PDFStreamDict.Index d) = Ok objs) :
  (PDFStreamDict.W d = None ->
   parseXRefStreamDict d = Err errXrefStreamMissingW)
  /\ (forall arr : list PDFObject,
        PDFStreamDict.W d = Some arr ->
        List.length arr <> 3%nat
        \/ (exists o, In o arr /\ validWidth o = false) ->
        parseXRefStreamDict d = Err errXrefStreamCorruptW)
  /\ (forall i1 i2 i3 : Z,
        PDFStreamDict.W d
        = Some [PDFInteger i1; PDFInteger i2; PDFInteger i3] ->
        0 <= i1 -> 0 <= i2 -> 0 <= i3 ->
        parseXRefStreamDict d
        = Ok (PDFXRefStreamDict.Build d size objs (i1, i2, i3)
                (PDFStreamDict.Prev d))).
Proof.
  unfold parseXRefStreamDict. rewrite HS, HI.
  split; [|split].
  - intros ->. reflexivity.
  - intros arr -> Hbad. now rewrite (xrefWidths_invalid arr Hbad).
  - intros i1 i2 i3 -> H1 H2 H3.
    apply Z.ltb_ge in H1, H2, H3.
    cbn [xrefWidths List.length Nat.eqb negb width nth_error].
    now rewrite H1, H2, H3.
Qed.

Lemma field_widths_are_validated_witness :
  PDFStreamDict.Size (streamDict None (Some [PDFInteger 1; PDFInteger (-2)]))
  = Some 10
  /\ xrefObjects 10 None = Ok [0; 1; 2; 3; 4; 5; 6; 7; 8; 9]
  /\ parseXRefStreamDict
       (streamDict None (Some [PDFInteger 1; PDFInteger (-2)]))
     = Err errXrefStreamCorruptW.
Proof.
  split; [reflexivity|]. split; [reflexivity|].
  apply (proj1 (proj2 (field_widths_are_validated
                         (streamDict None
                            (Some [PDFInteger 1; PDFInteger (-2)]))
                         10 [0; 1; 2; 3; 4; 5; 6; 7; 8; 9]
                         eq_refl eq_refl))
           [PDFInteger 1; PDFInteger (-2)] eq_refl).
  left. discriminate.
Defined.

(** ** The parsers at work *)

Example parseObject_string_literal :
  parseObject 0 "(a\051b)" = Some (Ok (PDFStringLiteral "a)b"), "").
Proof. reflexivity. Qed.

Example parseObject_hex_literal :
  parseObject 0 "<4142>" = Some (Ok (PDFHexLiteral "AB"), "").
Proof. reflexivity. Qed.

Example parseObject_nested :
  parseObject 8 "[/Type <</Kids [3 0 R 4 0 R] /Count 2>> true]"
  = Some (Ok (PDFArray
                [PDFName "Type";
                 PDFDict [("Kids", PDFArray [PDFIndirectRef 3 0;
                                             PDFIndirectRef 4 0]);
                          ("Count", PDFInteger 2)];
                 PDFBoolean true]), "").
Proof. reflexivity. Qed.

Example parseDict_duplicate_key :
  parseDict 3 "<</A 1 /A 2>>"
  = Some (Err errDictionaryDuplicateKey, "<</A 1 /A 2>>").
Proof. reflexivity. Qed.

Example parseObjectAttributes_header :
  parseObjectAttributes "12 0 obj <</Length 3>>"
  = (Ok (12, 0), " <</Length 3>>").
Proof. reflexivity. Qed.

(** * Further properties of the parsers *)

(** ** The cursor moves forward *)

Section Cursor.

Local Open Scope nat_scope.

Lemma drop_drop (a b : nat) (s : string) : drop a (drop b s) = drop (b + a) s.
Proof.
  revert s. induction b as [|b IH]; intro s; [reflexivity|].
  destruct s as [|c s]; simpl; [now destruct a | apply IH].
Qed.

Lemma drop_all (s : string) : drop (len s) s = "".
Proof. induction s as [|c s IH]; [reflexivity | exact IH]. Qed.

Lemma take_drop (n : nat) (s : string) : take n s ++ drop n s = s.
Proof.
  revert s. induction n as [|n IH]; intro s; [reflexivity|].
  destruct s as [|c s]; simpl; [reflexivity | now rewrite IH].
Qed.

Lemma len_drop (n : nat) (s : string) : len (drop n s) = len s - n.
Proof.
  revert s. induction n as [|n IH]; intro s; simpl; [lia|].
  destruct s as [|c s]; simpl; [reflexivity | apply IH].
Qed.

Lemma len_forwardParseBuf (s : string) (n : nat) :
  len (forwardParseBuf s n) = len s - n.
Proof.
  unfold forwardParseBuf. destruct (n <? len s) eqn:E.
  - apply len_drop.
  - apply Nat.ltb_ge in E. simpl. lia.
Qed.

Lemma forwardParseBuf_drop (s : string) (n : nat) :
  forwardParseBuf s n = drop n s.
Proof.
  unfold forwardParseBuf. destruct (n <? len s) eqn:E; [reflexivity|].
  apply Nat.ltb_ge in E.
  replace n with (len s + (n - len s)) by lia.
  rewrite <- drop_drop, drop_all. now destruct (n - len s).
Qed.

Lemma trimLeftSpace_drop (s : string) :
  fst (trimLeftSpace s) = drop (snd (trimLeftSpace s)) s.
Proof.
  induction s as [|c s IH]; [reflexivity|]. simpl.
  destruct (IsSpace c); [|reflexivity].
  destruct (trimLeftSpace s). exact IH.
Qed.

End Cursor.

Section Suffix.

Local Open Scope nat_scope.

Lemma suffix_refl (s : string) : suffix s s.
Proof. now exists "". Qed.

Lemma suffix_empty (s : string) : suffix "" s.
Proof. exists s. now rewrite append_empty. Qed.

Lemma append_assoc (a b c : string) : (a ++ b) ++ c = a ++ b ++ c.
Proof. induction a as [|x a IH]; simpl; [reflexivity | now rewrite IH]. Qed.

Lemma suffix_trans (a b c : string) : suffix a b -> suffix b c -> suffix a c.
Proof.
  intros [p ->] [q ->]. exists (q ++ p). now rewrite append_assoc.
Qed.

Lemma suffix_drop (n : nat) (r s : string) :
  suffix r s -> suffix (drop n r) s.
Proof.
  intro H. apply (suffix_trans _ r); [|exact H].
  exists (take n r). now rewrite take_drop.
Qed.

Lemma suffix_forwardParseBuf (n : nat) (r s : string) :
  suffix r s -> suffix (forwardParseBuf r n) s.
Proof. rewrite forwardParseBuf_drop. apply suffix_drop. Qed.

Lemma suffix_trimLeftSpace (r s : string) :
  suffix r s -> suffix (fst (trimLeftSpace r)) s.
Proof. rewrite trimLeftSpace_drop. apply suffix_drop. Qed.

Lemma suffix_len (r s : string) : suffix r s -> len r <= len s.
Proof. intros [p ->]. rewrite len_app. lia. Qed.

End Suffix.

Create HintDb cursor.

#[local] Hint Resolve suffix_refl suffix_empty suffix_drop
  suffix_forwardParseBuf suffix_trimLeftSpace : cursor.

Ltac ok_leaves_suffix :=
  cbv zeta; split_cases;
  let H := fresh in
  intro H; solve [ discriminate H | inversion H; subst; auto 12 with cursor ].

Lemma parseName_suffix (line rest v : string) :
  parseName line = (Ok v, rest) -> suffix rest line.
Proof. unfold parseName. ok_leaves_suffix. Qed.

Lemma parseStringLiteral_suffix (line rest : string) (v : PDFObject) :
  parseStringLiteral line = (Ok v, rest) -> suffix rest line.
Proof. unfold parseStringLiteral. ok_leaves_suffix. Qed.

Lemma parseHexLiteral_suffix (line rest : string) (v : PDFObject) :
  parseHexLiteral line = (Ok v, rest) -> suffix rest line.
Proof. unfold parseHexLiteral. ok_leaves_suffix. Qed.

Lemma parseNumericOrIndRef_suffix (line rest : string) (v : PDFObject) :
  parseNumericOrIndRef line = (Ok v, rest) -> suffix rest line.
Proof. unfold parseNumericOrIndRef. ok_leaves_suffix. Qed.

Lemma parseObjectAttributes_suffix (line rest : string) (v : Z * Z) :
  parseObjectAttributes line = (Ok v, rest) -> suffix rest line.
Proof. unfold parseObjectAttributes. ok_leaves_suffix. Qed.

Section ForwardWith.

Variable aloop : string -> list PDFObject -> looped (list PDFObject).
Variable dloop : string -> dict -> looped dict.
Hypothesis Ha : loopForward aloop.
Hypothesis Hd : loopForward dloop.

Lemma parseArrayWith_suffix (line rest : string) (v : list PDFObject) :
  parseArrayWith aloop line = Some (Ok v, rest) -> suffix rest line.
Proof.
  unfold parseArrayWith.
  repeat match goal with
         | |- context [if ?b then _ else _] => destruct b
         end; try discriminate.
  destruct (aloop _ _) as [[[a l']| |]|] eqn:E; try discriminate.
  intro H. inversion H; subst.
  apply Ha in E. apply suffix_forwardParseBuf.
  apply (suffix_trans _ _ _ E). auto with cursor.
Qed.

Lemma parseDictWith_suffix (line rest : string) (v : dict) :
  parseDictWith dloop line = Some (Ok v, rest) -> suffix rest line.
Proof.
  unfold parseDictWith.
  repeat match goal with
         | |- context [if ?b then _ else _] => destruct b
         end; try discriminate.
  destruct (dloop _ _) as [[[a l']| |]|] eqn:E; try discriminate.
  intro H. inversion H; subst.
  apply Hd in E. apply suffix_forwardParseBuf.
  apply (suffix_trans _ _ _ E). auto with cursor.
Qed.

Lemma parseObjectWith_suffix (line rest : string) (v : PDFObject) :
  parseObjectWith aloop dloop line = Some (Ok v, rest) -> suffix rest line.
Proof.
  unfold parseObjectWith.
  assert (T : suffix (fst (trimLeftSpace line)) line) by auto with cursor.
  revert T. generalize (fst (trimLeftSpace line)) as l. intros l T.
  repeat match goal with
         | |- context [if ?b then _ else _] => destruct b
         | |- context [match at_ ?s ?i with _ => _ end] => destruct (at_ s i)
         end; try discriminate.
  all: try (let H := fresh in
            intro H; inversion H; subst; auto with cursor; fail).
  all: match goal with
       | |- context [parseArrayWith aloop ?s] =>
           destruct (parseArrayWith aloop s) as [[[x| |] l']|] eqn:E;
           try discriminate; intro H; inversion H; subst;
           exact (suffix_trans _ _ _ (parseArrayWith_suffix _ _ _ E) T)
       | |- context [parseDictWith dloop ?s] =>
           destruct (parseDictWith dloop s) as [[[x| |] l']|] eqn:E;
           try discriminate; intro H; inversion H; subst;
           exact (suffix_trans _ _ _ (parseDictWith_suffix _ _ _ E) T)
       | |- context [parseName ?s] =>
           destruct (parseName s) as [[x| |] l'] eqn:E;
           try discriminate; intro H; inversion H; subst;
           exact (suffix_trans _ _ _ (parseName_suffix _ _ _ E) T)
       | |- context [parseHexLiteral ?s] =>
           destruct (parseHexLiteral s) as [[x| |] l'] eqn:E;
           try discriminate; intro H; inversion H; subst;
           exact (suffix_trans _ _ _ (parseHexLiteral_suffix _ _ _ E) T)
       | |- context [parseStringLiteral ?s] =>
           destruct (parseStringLiteral s) as [[x| |] l'] eqn:E;
           try discriminate; intro H; inversion H; subst;
           exact (suffix_trans _ _ _ (parseStringLiteral_suffix _ _ _ E) T)
       | |- context [parseNumericOrIndRef ?s] =>
           destruct (parseNumericOrIndRef s) as [[x| |] l'] eqn:E;
           try discriminate; intro H; inversion H; subst;
           exact (suffix_trans _ _ _ (parseNumericOrIndRef_suffix _ _ _ E) T)
       end.
Qed.

End ForwardWith.

Lemma loops_forward (fuel : nat) :
  loopForward (arrayLoop fuel) /\ loopForward (dictLoop fuel).
Proof.
  induction fuel as [|fuel [IHa IHd]].
  - split; intros l a a' l' H; discriminate H.
  - split; intros l a a' l'.
    + rewrite arrayLoop_S.
      destruct (HasPrefix l "]").
      { intro H. inversion H; subst. apply suffix_refl. }
      destruct (parseObjectWith (arrayLoop fuel) (dictLoop fuel) l)
        as [[[o| |] l1]|] eqn:E; try discriminate.
      apply (parseObjectWith_suffix _ _ IHa IHd) in E.
      cbv zeta. destruct (isEmpty l1); [discriminate|].
      destruct (isEmpty (fst (trimLeftSpace l1))); [discriminate|].
      intro H. apply IHa in H.
      apply (suffix_trans _ _ _ H).
      now apply suffix_trimLeftSpace.
    + rewrite dictLoop_S.
      destruct (HasPrefix l ">>").
      { intro H. inversion H; subst. apply suffix_refl. }
      destruct (parseName l) as [[key| |] l0] eqn:N; try discriminate.
      apply parseName_suffix in N. cbv zeta.
      destruct (isEmpty (fst (trimLeftSpace l0))); [discriminate|].
      destruct (parseObjectWith (arrayLoop fuel) (dictLoop fuel) _)
        as [[[o| |] l1]|] eqn:E; try discriminate.
      apply (parseObjectWith_suffix _ _ IHa IHd) in E.
      destruct (Insert a key o); [|discriminate].
      destruct (isEmpty l1); [discriminate|].
      destruct (isEmpty (fst (trimLeftSpace l1))); [discriminate|].
      intro H. apply IHd in H.
      apply (suffix_trans _ _ _ H).
      apply suffix_trimLeftSpace.
      apply (suffix_trans _ _ _ E).
      now apply suffix_trimLeftSpace.
Qed.

(** X1.  The cursor only moves forward: whenever one of the parsers returns
    a value, the buffer it leaves is the buffer it was given without a
    prefix. *)
Theorem remainder_is_suffix
  (fuel : nat) (line rest : string)
  (H : (exists v, parseObject fuel line = Some (Ok v, rest))
       \/ (exists v, parseArray fuel line = Some (Ok v, rest))
       \/ (exists v, parseDict fuel line = Some (Ok v, rest))
       \/ (exists v, parseName line = (Ok v, rest))
       \/ (exists v, parseStringLiteral line = (Ok v, rest))
       \/ (exists v, parseHexLiteral line = (Ok v, rest))
       \/ (exists v, parseNumericOrIndRef line = (Ok v, rest))
       \/ (exists v, parseObjectAttributes line = (Ok v, rest))) :
  exists consumed : string, line = consumed ++ rest.
Proof.
  destruct (loops_forward fuel) as [Fa Fd].
  destruct H as [[v H]|[[v H]|[[v H]|[[v H]|[[v H]|[[v H]|[[v H]|[v H]]]]]]]].
  - exact (parseObjectWith_suffix _ _ Fa Fd _ _ _ H).
  - exact (parseArrayWith_suffix _ Fa _ _ _ H).
  - exact (parseDictWith_suffix _ Fd _ _ _ H).
  - exact (parseName_suffix _ _ _ H).
  - exact (parseStringLiteral_suffix _ _ _ H).
  - exact (parseHexLiteral_suffix _ _ _ H).
  - exact (parseNumericOrIndRef_suffix _ _ _ H).
  - exact (parseObjectAttributes_suffix _ _ _ H).
Qed.

Lemma remainder_is_suffix_witness :
  parseObject 4 "  [1 /N] (tail)"
  = Some (Ok (PDFArray [PDFInteger 1; PDFName "N"]), " (tail)")
  /\ exists consumed : string, "  [1 /N] (tail)" = consumed ++ " (tail)".
Proof.
  split; [reflexivity|].
  apply (remainder_is_suffix 4 "  [1 /N] (tail)" " (tail)").
  left. eexists. reflexivity.
Defined.

Section Progress.

Local Open Scope nat_scope.

Lemma isEmpty_len (s : string) : isEmpty s = false -> 0 < len s.
Proof. destruct s; [discriminate | simpl; lia]. Qed.

Lemma len_trimLeftSpace (s : string) : len (fst (trimLeftSpace s)) <= len s.
Proof. apply suffix_len. auto with cursor. Qed.

Ltac shorter :=
  cbv zeta;
  repeat match goal with
         | |- context [if ?b then _ else _] => destruct b eqn:?
         | |- context [match ?x with _ => _ end] => destruct x eqn:?
         end;
  let H := fresh in
  intro H; try discriminate H; inversion H; subst;
  repeat match goal with
         | E : isEmpty _ = false |- _ => apply isEmpty_len in E
         end;
  repeat (rewrite len_forwardParseBuf || rewrite len_drop);
  change (len "") with 0; cbn [len String.length Nat.add] in *; lia.

Lemma parseName_shorter (line rest v : string) :
  parseName line = (Ok v, rest) -> len rest < len line.
Proof. unfold parseName. shorter. Qed.

Lemma parseStringLiteral_shorter (line rest : string) (v : PDFObject) :
  parseStringLiteral line = (Ok v, rest) -> len rest < len line.
Proof. unfold parseStringLiteral. shorter. Qed.

Lemma parseHexLiteral_shorter (line rest : string) (v : PDFObject) :
  parseHexLiteral line = (Ok v, rest) -> len rest < len line.
Proof. unfold parseHexLiteral. shorter. Qed.

Lemma parseObjectAttributes_shorter (line rest : string) (v : Z * Z) :
  parseObjectAttributes line = (Ok v, rest) -> len rest < len line.
Proof. unfold parseObjectAttributes. shorter. Qed.

Lemma parseArrayWith_shorter aloop (line rest : string) (v : list PDFObject) :
  loopForward aloop ->
  parseArrayWith aloop line = Some (Ok v, rest) -> len rest < len line.
Proof.
  intro Ha. unfold parseArrayWith.
  destruct (isEmpty line) eqn:E0; [discriminate|]. apply isEmpty_len in E0.
  repeat match goal with
         | |- context [if ?b then _ else _] => destruct b
         end; try discriminate.
  destruct (aloop _ _) as [[[x l']| |]|] eqn:E; try discriminate.
  intro H. inversion H; subst.
  apply Ha, suffix_len in E.
  pose proof (len_trimLeftSpace (forwardParseBuf line 1)) as T.
  rewrite len_forwardParseBuf in *. lia.
Qed.

Lemma parseDictWith_shorter dloop (line rest : string) (v : dict) :
  loopForward dloop ->
  parseDictWith dloop line = Some (Ok v, rest) -> len rest < len line.
Proof.
  intro Hd. unfold parseDictWith.
  destruct (isEmpty line) eqn:E0; [discriminate|]. apply isEmpty_len in E0.
  repeat match goal with
         | |- context [if ?b then _ else _] => destruct b
         end; try discriminate.
  destruct (dloop _ _) as [[[x l']| |]|] eqn:E; try discriminate.
  intro H. inversion H; subst.
  apply Hd, suffix_len in E.
  pose proof (len_trimLeftSpace (forwardParseBuf line 2)) as T.
  rewrite len_forwardParseBuf in *. lia.
Qed.

End Progress.

(** X2.  [parseArray], [parseDict], [parseName], [parseStringLiteral],
    [parseHexLiteral] and [parseObjectAttributes] make progress: whenever
    one of them returns a value, the buffer it leaves is strictly shorter
    than the buffer it was given. *)
Theorem success_consumes_input
  (fuel : nat) (line rest : string)
  (H : (exists v, parseArray fuel line = Some (Ok v, rest))
       \/ (exists v, parseDict fuel line = Some (Ok v, rest))
       \/ (exists v, parseName line = (Ok v, rest))
       \/ (exists v, parseStringLiteral line = (Ok v, rest))
       \/ (exists v, parseHexLiteral line = (Ok v, rest))
       \/ (exists v, parseObjectAttributes line = (Ok v, rest))) :
  (len rest < len line)%nat.
Proof.
  destruct (loops_forward fuel) as [Fa Fd].
  destruct H as [[v H]|[[v H]|[[v H]|[[v H]|[[v H]|[v H]]]]]].
  - exact (parseArrayWith_shorter _ _ _ _ Fa H).
  - exact (parseDictWith_shorter _ _ _ _ Fd H).
  - exact (parseName_shorter _ _ _ H).
  - exact (parseStringLiteral_shorter _ _ _ H).
  - exact (parseHexLiteral_shorter _ _ _ H).
  - exact (parseObjectAttributes_shorter _ _ _ H).
Qed.

Lemma success_consumes_input_witness :
  parseDict 3 "<</K [1]>> endobj"
  = Some (Ok [("K", PDFArray [PDFInteger 1])], " endobj")
  /\ (len " endobj" < len "<</K [1]>> endobj")%nat.
Proof.
  split; [reflexivity|].
  apply (success_consumes_input 3 "<</K [1]>> endobj" " endobj").
  right. left. eexists. reflexivity.
Defined.

(** ** Dictionary keys *)

Lemma distinct_snoc (ks : list string) (k : string) :
  distinct ks = true -> existsb (fun x => String.eqb x k) ks = false ->
  distinct (ks ++ [k]) = true.
Proof.
  induction ks as [|x ks IH]; intros D N; [reflexivity|].
  cbn [distinct existsb app] in *.
  apply andb_prop in D. destruct D as [Dx D].
  apply orb_false_iff in N. destruct N as [Nx N].
  rewrite (IH D N), andb_true_r.
  rewrite existsb_app. cbn [existsb].
  apply negb_true_iff in Dx. rewrite Dx, Nx. reflexivity.
Qed.

Lemma Insert_distinct (d d' : dict) (k : string) (v : PDFObject) :
  distinctDict d = true -> distinctKeys v = true ->
  Insert d k v = Some d' -> distinctDict d' = true.
Proof.
  unfold Insert, hasKey, distinctDict. intros D V.
  destruct (existsb _ d) eqn:E; [discriminate|].
  intro H. injection H as <-.
  apply andb_prop in D. destruct D as [D1 D2].
  rewrite map_app, forallb_app. cbn [map forallb fst snd].
  rewrite D2, V. rewrite distinct_snoc; [reflexivity | exact D1 |].
  clear -E. induction d as [|kv d IH]; [reflexivity|].
  cbn [map existsb] in *. apply orb_false_iff in E. destruct E as [E1 E2].
  now rewrite E1, (IH E2).
Qed.

Lemma scalar_distinctKeys (line rest : string) (v : PDFObject) :
  parseStringLiteral line = (Ok v, rest)
  \/ parseHexLiteral line = (Ok v, rest)
  \/ parseNumericOrIndRef line = (Ok v, rest) ->
  distinctKeys v = true.
Proof.
  intros [H|[H|H]]; revert H;
    [unfold parseStringLiteral | unfold parseHexLiteral
     | unfold parseNumericOrIndRef];
    cbv zeta; split_cases;
    (let H := fresh in
     intro H; solve [discriminate H | inversion H; reflexivity]).
Qed.

Section DistinctWith.

Variable aloop : string -> list PDFObject -> looped (list PDFObject).
Variable dloop : string -> dict -> looped dict.
Hypothesis Ha : loopDistinctA aloop.
Hypothesis Hd : loopDistinctD dloop.

Lemma parseArrayWith_distinctKeys (line rest : string) (v : list PDFObject) :
  parseArrayWith aloop line = Some (Ok v, rest) ->
  forallb distinctKeys v = true.
Proof.
  unfold parseArrayWith.
  repeat match goal with
         | |- context [if ?b then _ else _] => destruct b
         end; try discriminate.
  destruct (aloop _ _) as [[[x l']| |]|] eqn:E; try discriminate.
  intro H. inversion H; subst. exact (Ha _ [] _ _ eq_refl E).
Qed.

Lemma parseDictWith_distinctKeys (line rest : string) (v : dict) :
  parseDictWith dloop line = Some (Ok v, rest) -> distinctDict v = true.
Proof.
  unfold parseDictWith.
  repeat match goal with
         | |- context [if ?b then _ else _] => destruct b
         end; try discriminate.
  destruct (dloop _ _) as [[[x l']| |]|] eqn:E; try discriminate.
  intro H. inversion H; subst. exact (Hd _ NewPDFDict _ _ eq_refl E).
Qed.

Lemma parseObjectWith_distinctKeys (line rest : string) (v : PDFObject) :
  parseObjectWith aloop dloop line = Some (Ok v, rest) ->
  distinctKeys v = true.
Proof.
  unfold parseObjectWith.
  generalize (fst (trimLeftSpace line)) as l. intro l.
  repeat match goal with
         | |- context [if ?b then _ else _] => destruct b
         | |- context [match at_ ?s ?i with _ => _ end] => destruct (at_ s i)
         end; try discriminate.
  all: try (let H := fresh in
            intro H; inversion H; subst; reflexivity).
  all: match goal with
       | |- context [parseArrayWith aloop ?s] =>
           destruct (parseArrayWith aloop s) as [[[x| |] l']|] eqn:E;
           try discriminate; intro H; inversion H; subst;
           exact (parseArrayWith_distinctKeys _ _ _ E)
       | |- context [parseDictWith dloop ?s] =>
           destruct (parseDictWith dloop s) as [[[x| |] l']|] eqn:E;
           try discriminate; intro H; inversion H; subst;
           exact (parseDictWith_distinctKeys _ _ _ E)
       | |- context [parseName ?s] =>
           destruct (parseName s) as [[x| |] l'] eqn:E;
           try discriminate; intro H; inversion H; subst; reflexivity
       | |- context [parseHexLiteral ?s] =>
           destruct (parseHexLiteral s) as [[x| |] l'] eqn:E;
           try discriminate; intro H; inversion H; subst;
           eapply scalar_distinctKeys; eauto
       | |- context [parseStringLiteral ?s] =>
           destruct (parseStringLiteral s) as [[x| |] l'] eqn:E;
           try discriminate; intro H; inversion H; subst;
           eapply scalar_distinctKeys; eauto
       | |- context [parseNumericOrIndRef ?s] =>
           destruct (parseNumericOrIndRef s) as [[x| |] l'] eqn:E;
           try discriminate; intro H; inversion H; subst;
           eapply scalar_distinctKeys; eauto
       end.
Qed.

End DistinctWith.

Lemma loops_distinct (fuel : nat) :
  loopDistinctA (arrayLoop fuel) /\ loopDistinctD (dictLoop fuel).
Proof.
  induction fuel as [|fuel [IHa IHd]].
  - split; intros l a a' l' _ H; discriminate H.
  - split; intros l a a' l' Inv.
    + rewrite arrayLoop_S.
      destruct (HasPrefix l "]").
      { intro H. inversion H; subst. exact Inv. }
      destruct (parseObjectWith (arrayLoop fuel) (dictLoop fuel) l)
        as [[[o| |] l1]|] eqn:E; try discriminate.
      apply (parseObjectWith_distinctKeys _ _ IHa IHd) in E.
      cbv zeta. destruct (isEmpty l1); [discriminate|].
      destruct (isEmpty (fst (trimLeftSpace l1))); [discriminate|].
      apply IHa. rewrite forallb_app. cbn [forallb].
      now rewrite Inv, E.
    + rewrite dictLoop_S.
      destruct (HasPrefix l ">>").
      { intro H. inversion H; subst. exact Inv. }
      destruct (parseName l) as [[key| |] l0]; try discriminate.
      cbv zeta.
      destruct (isEmpty (fst (trimLeftSpace l0))); [discriminate|].
      destruct (parseObjectWith (arrayLoop fuel) (dictLoop fuel) _)
        as [[[o| |] l1]|] eqn:E; try discriminate.
      apply (parseObjectWith_distinctKeys _ _ IHa IHd) in E.
      destruct (Insert a key o) as [d1|] eqn:I; [|discriminate].
      destruct (isEmpty l1); [discriminate|].
      destruct (isEmpty (fst (trimLeftSpace l1))); [discriminate|].
      apply IHd. exact (Insert_distinct _ _ _ _ Inv E I).
Qed.

(** X3.  No dictionary that the parsers build holds a key twice: in a value
    returned by [parseObject], and in a dictionary returned by [parseDict]
    with the values in it, every dictionary at every depth has distinct
    keys. *)
Theorem parsed_dictionaries_have_distinct_keys
  (fuel : nat) (line rest : string) (v : PDFObject)
  (H : parseObject fuel line = Some (Ok v, rest)
       \/ exists d, v = PDFDict d /\ parseDict fuel line = Some (Ok d, rest)) :
  distinctKeys v = true.
Proof.
  destruct (loops_distinct fuel) as [Fa Fd].
  destruct H as [H|[d [-> H]]].
  - exact (parseObjectWith_distinctKeys _ _ Fa Fd _ _ _ H).
  - exact (parseDictWith_distinctKeys _ Fd _ _ _ H).
Qed.

Lemma parsed_dictionaries_have_distinct_keys_witness :
  parseObject 8 "[<</A 1 /B <</A 2>>>>]"
  = Some (Ok (PDFArray [PDFDict [("A", PDFInteger 1);
                                 ("B", PDFDict [("A", PDFInteger 2)])]]),
          "")
  /\ distinctKeys
       (PDFArray [PDFDict [("A", PDFInteger 1);
                           ("B", PDFDict [("A", PDFInteger 2)])]]) = true.
Proof.
  split; [reflexivity|].
  apply (parsed_dictionaries_have_distinct_keys 8 "[<</A 1 /B <</A 2>>>>]" "").
  left. reflexivity.
Defined.

(** ** The dispatcher *)

Lemma trimLeftSpace_skip (ws s : string) :
  allSpace ws = true ->
  fst (trimLeftSpace (ws ++ s)) = fst (trimLeftSpace s).
Proof.
  intro Hws. induction ws as [|c ws IH]; [reflexivity|].
  cbn [allSpace] in Hws. apply andb_prop in Hws. destruct Hws as [Hc Hws].
  cbn [append trimLeftSpace]. rewrite Hc. specialize (IH Hws).
  destruct (trimLeftSpace (ws ++ s)). exact IH.
Qed.

Lemma isEmpty_app (a b : string) :
  isEmpty (a ++ b) = isEmpty a && isEmpty b.
Proof. now destruct a. Qed.

(** X4.  Whitespace in front of an object does not change what
    [parseObject] makes of it: the value and the remainder are those of the
    buffer without the whitespace, and a failure is the same failure (with
    the caller's buffer left as it was given). *)
Theorem parseObject_skips_leading_whitespace
  (fuel : nat) (ws s : string) (Hws : allSpace ws = true) :
  parseObject fuel (ws ++ s)
  = match parseObject fuel s with
    | Some (Ok v, rest) => Some (Ok v, rest)
    | Some (Err e, _) => Some (Err e, ws ++ s)
    | Some (Panic, _) => Some (Panic, ws ++ s)
    | None => None
    end.
Proof.
  unfold parseObject, parseObjectWith.
  rewrite (trimLeftSpace_skip ws s Hws), isEmpty_app.
  destruct (isEmpty s) eqn:Es.
  - destruct s; [|discriminate]. now destruct (isEmpty ws).
  - rewrite andb_false_r.
    generalize (fst (trimLeftSpace s)) as l. intro l.
    repeat match goal with
           | |- context [if ?b then _ else _] => destruct b
           | |- context [match ?x with _ => _ end] => destruct x
           end; reflexivity.
Qed.

Lemma parseObject_skips_leading_whitespace_witness :
  allSpace "   " = true
  /\ parseObject 3 ("   " ++ "[/A 1]x")
     = Some (Ok (PDFArray [PDFName "A"; PDFInteger 1]), "x").
Proof.
  split; [reflexivity|].
  exact (parseObject_skips_leading_whitespace 3 "   " "[/A 1]x" eq_refl).
Defined.

(** X5.  The literals [null], [true] and [false] are recognised by prefix
    alone: whatever follows them, also a letter, is left in the buffer. *)
Theorem keywords_by_prefix (fuel : nat) (rest : string) :
  parseObject fuel ("null" ++ rest) = Some (Ok PDFNull, rest)
  /\ parseObject fuel ("true" ++ rest) = Some (Ok (PDFBoolean true), rest)
  /\ parseObject fuel ("false" ++ rest) = Some (Ok (PDFBoolean false), rest).
Proof.
  split; [|split].
  - rewrite <- (forwardParseBuf_app "null" rest) at 2. reflexivity.
  - rewrite <- (forwardParseBuf_app "true" rest) at 2. reflexivity.
  - rewrite <- (forwardParseBuf_app "false" rest) at 2. reflexivity.
Qed.

(** ** Integers before a delimiter *)

Lemma scan_stop_is_delimiter (c : ascii) :
  IsSpace c = false -> mem c "/<([]>" = true -> delimiter c = true.
Proof.
  destruct c as [[] [] [] [] [] [] [] []]; vm_compute; congruence.
Qed.

Section Standalone.

Variables (t1 : string) (n1 : Z).
Hypothesis Ht1 : strconv.Atoi t1 = Ok n1.

Lemma token_nonempty : (0 <? len t1)%nat = true /\ (len t1 =? 0)%nat = false.
Proof.
  destruct (Atoi_token _ _ Ht1) as [_ N].
  destruct t1; [congruence | split; reflexivity].
Qed.

Lemma integer_then_delimiter (c : ascii) (rest : string) :
  IsSpace c = false -> mem c "/<([]>" = true ->
  parseNumericOrIndRef (t1 ++ String c rest)
  = (Ok (PDFInteger n1), String c rest).
Proof.
  intros Hs Hc.
  destruct (Atoi_token _ _ Ht1) as [Hp1 _].
  destruct token_nonempty as [Hl1 Hz1].
  assert (Hstop : IsSpace c || mem c "/<([]>" = true)
    by now rewrite Hc, orb_true_r.
  unfold parseNumericOrIndRef.
  rewrite isEmpty_app_cons, (position_token _ _ _ _ Hp1 Hstop).
  rewrite Hl1, Hz1, take_app, drop_app, Ht1, at_app.
  cbn [orElse option_map]. now rewrite (scan_stop_is_delimiter _ Hs Hc).
Qed.

Lemma integer_space_delimiter (ws1 rest : string) (c : ascii) :
  allSpace ws1 = true -> isEmpty ws1 = false ->
  IsSpace c = false -> mem c "/<([]>" = true ->
  parseNumericOrIndRef (t1 ++ ws1 ++ String c rest)
  = (Ok (PDFInteger n1), ws1 ++ String c rest).
Proof.
  intros Hws Hne Hs Hc.
  destruct (Atoi_token _ _ Ht1) as [Hp1 _].
  destruct token_nonempty as [Hl1 Hz1].
  destruct ws1 as [|w r]; [discriminate|].
  cbn [allSpace] in Hws. apply andb_prop in Hws. destruct Hws as [Hw Hr].
  assert (Hstop : IsSpace w || mem w "/<([]>" = true) by now rewrite Hw.
  cbn [append]. unfold parseNumericOrIndRef.
  rewrite isEmpty_app_cons, (position_token _ _ _ _ Hp1 Hstop).
  rewrite Hl1, Hz1, take_app, drop_app, Ht1, at_app.
  cbn [orElse option_map]. rewrite (space_not_delimiter _ Hw).
  assert (E : fst (trimLeftSpace (String w (r ++ String c rest)))
              = String c rest).
  { apply (trimLeftSpace_app (String w r)).
    - cbn [allSpace]. now rewrite Hw, Hr.
    - cbn [trimmed]. now rewrite Hs. }
  rewrite E. cbn [isEmpty].
  unfold positionToNextWhitespaceOrChar. cbn [scanFrom].
  rewrite Hc, orb_true_r. reflexivity.
Qed.

Lemma integer_integer_delimiter
  (ws1 t2 rest : string) (n2 : Z) (c : ascii) :
  strconv.Atoi t2 = Ok n2 ->
  allSpace ws1 = true -> isEmpty ws1 = false ->
  IsSpace c = false -> mem c "/<([]>" = true ->
  parseNumericOrIndRef (t1 ++ ws1 ++ t2 ++ String c rest)
  = (Ok (PDFInteger n1), ws1 ++ t2 ++ String c rest).
Proof.
  intros Ht2 Hws Hne Hs Hc.
  destruct (Atoi_token _ _ Ht1) as [Hp1 _].
  destruct (Atoi_token _ _ Ht2) as [Hp2 Hn2].
  destruct token_nonempty as [Hl1 Hz1].
  destruct ws1 as [|w r]; [discriminate|].
  cbn [allSpace] in Hws. apply andb_prop in Hws. destruct Hws as [Hw Hr].
  assert (Hstop : IsSpace w || mem w "/<([]>" = true) by now rewrite Hw.
  assert (Hstop2 : IsSpace c || mem c "/<([]>" = true)
    by now rewrite Hc, orb_true_r.
  cbn [append]. unfold parseNumericOrIndRef.
  rewrite isEmpty_app_cons, (position_token _ _ _ _ Hp1 Hstop).
  rewrite Hl1, Hz1, take_app, drop_app, Ht1, at_app.
  cbn [orElse option_map]. rewrite (space_not_delimiter _ Hw).
  assert (E : fst (trimLeftSpace (String w (r ++ t2 ++ String c rest)))
              = t2 ++ String c rest).
  { apply (trimLeftSpace_app (String w r)).
    - cbn [allSpace]. now rewrite Hw, Hr.
    - now apply (plain_trimmed "/<([]>"). }
  rewrite E, isEmpty_app_cons, (position_token _ _ _ _ Hp2 Hstop2).
  assert (Hz2 : (len t2 =? 0)%nat = false).
  { destruct t2; [congruence | reflexivity]. }
  rewrite Hz2, at_app. cbn [orElse option_map].
  now rewrite (scan_stop_is_delimiter _ Hs Hc).
Qed.

End Standalone.

(** X6.  An integer token that one of the delimiters [/ < ( [ ] >] follows,
    at once or after whitespace, is a standalone [Integer]: the cursor stops
    right behind the token.  So it is when a second integer token comes
    between the whitespace and the delimiter. *)
Theorem integer_before_delimiter
  (t1 ws1 t2 rest : string) (n1 n2 : Z) (c : ascii)
  (Ht1 : strconv.Atoi t1 = Ok n1)
  (Ht2 : strconv.Atoi t2 = Ok n2)
  (Hws : allSpace ws1 = true) (Hne : isEmpty ws1 = false)
  (Hs : IsSpace c = false) (Hc : mem c "/<([]>" = true) :
  parseNumericOrIndRef (t1 ++ String c rest)
  = (Ok (PDFInteger n1), String c rest)
  /\ parseNumericOrIndRef (t1 ++ ws1 ++ String c rest)
     = (Ok (PDFInteger n1), ws1 ++ String c rest)
  /\ parseNumericOrIndRef (t1 ++ ws1 ++ t2 ++ String c rest)
     = (Ok (PDFInteger n1), ws1 ++ t2 ++ String c rest).
Proof.
  split; [|split].
  - now apply integer_then_delimiter.
  - now apply integer_space_delimiter.
  - now apply (integer_integer_delimiter t1 n1 Ht1 ws1 t2 rest n2).
Qed.

Lemma integer_before_delimiter_witness :
  strconv.Atoi "612" = Ok 612 /\ strconv.Atoi "792" = Ok 792
  /\ allSpace " " = true /\ isEmpty " " = false
  /\ IsSpace "]"%char = false /\ mem "]"%char "/<([]>" = true
  /\ parseNumericOrIndRef ("612" ++ " " ++ "792" ++ String "]"%char ">>")
     = (Ok (PDFInteger 612), " " ++ "792" ++ String "]"%char ">>").
Proof.
  do 6 (split; [reflexivity|]).
  exact (proj2 (proj2 (integer_before_delimiter
                         "612" " " "792" ">>" 612 792 "]"%char
                         eq_refl eq_refl eq_refl eq_refl eq_refl eq_refl))).
Defined.

(** ** Names *)

Lemma scanFrom_plain (chars s : string) (i : nat) :
  plain chars s = true -> scanFrom i s chars = ((i + len s)%nat, false).
Proof.
  revert i. induction s as [|c s IH]; intros i H; simpl.
  - f_equal. lia.
  - cbn [plain] in H. apply andb_prop in H. destruct H as [Hc H].
    apply negb_true_iff in Hc. rewrite Hc, (IH _ H). f_equal. lia.
Qed.

Lemma parseName_body
  (body tail : string)
  (Hb : plain "/<>()[]" body = true) (Hne : isEmpty body = false)
  (Ht : stopsAt "/<>()[]" tail = true) :
  parseName ("/" ++ body ++ tail) = (Ok body, tail).
Proof.
  destruct tail as [|c rest].
  - rewrite append_empty. unfold parseName.
    assert (L : (len ("/" ++ body) <? 2)%nat = false).
    { apply Nat.ltb_ge. destruct body; [discriminate | simpl; lia]. }
    rewrite L, (forwardParseBuf_app "/").
    unfold positionToNextWhitespaceOrChar. rewrite (scanFrom_plain _ _ _ Hb).
    cbn [fst Nat.add].
    assert (P : (0 <? len body)%nat = true) by (now destruct body).
    rewrite P.
    cbn [isEmpty append HasPrefix Ascii.eqb Bool.eqb andb negb orb orElse].
    f_equal.
    + f_equal. rewrite <- (append_empty body) at 2. apply take_app.
    + apply drop_all.
  - now apply parseName_cut.
Qed.

(** X7.  A name of at least one character is cut at the first whitespace or
    delimiter, or at the end of the buffer: [parseName] returns the
    characters between the slash and that place and leaves the rest, the
    terminating character included. *)
Theorem parseName_cuts_at_terminator
  (body tail : string)
  (Hb : plain "/<>()[]" body = true) (Hne : isEmpty body = false)
  (Ht : stopsAt "/<>()[]" tail = true) :
  parseName ("/" ++ body ++ tail) = (Ok body, tail)
  /\ forall fuel : nat,
       parseObject fuel ("/" ++ body ++ tail) = Some (Ok (PDFName body), tail).
Proof.
  pose proof (parseName_body body tail Hb Hne Ht) as P.
  split; [exact P|]. intro fuel.
  unfold parseObject, parseObjectWith.
  rewrite (trimLeftSpace_trimmed ("/" ++ body ++ tail) eq_refl).
  cbn [fst].
  change (isEmpty ("/" ++ body ++ tail)) with false.
  change (at_ ("/" ++ body ++ tail) 0) with (Some "/"%char).
  cbv iota beta.
  change (Ascii.eqb "/" "[") with false.
  change (Ascii.eqb "/" "/") with true.
  cbv iota. now rewrite P.
Qed.

Lemma parseName_cuts_at_terminator_witness :
  plain "/<>()[]" "Type" = true /\ isEmpty "Type" = false
  /\ stopsAt "/<>()[]" "/Page>>" = true
  /\ parseName ("/" ++ "Type" ++ "/Page>>") = (Ok "Type", "/Page>>").
Proof.
  do 3 (split; [reflexivity|]).
  exact (proj1 (parseName_cuts_at_terminator "Type" "/Page>>"
                  eq_refl eq_refl eq_refl)).
Defined.

(** ** Arrays of integers *)

Lemma numeral_facts (c : ascii) :
  numeral c = true ->
  IsSpace c = false
  /\ Ascii.eqb c "[" = false /\ Ascii.eqb c "/" = false
  /\ Ascii.eqb c "<" = false /\ Ascii.eqb c "(" = false
  /\ Ascii.eqb "n" c = false /\ Ascii.eqb "t" c = false
  /\ Ascii.eqb "f" c = false /\ Ascii.eqb "]" c = false
  /\ Ascii.eqb c "R" = false.
Proof.
  destruct c as [[] [] [] [] [] [] [] []]; vm_compute;
    intuition congruence.
Qed.

Lemma Atoi_head (t : string) (n : Z) :
  strconv.Atoi t = Ok n ->
  exists c t', t = String c t' /\ numeral c = true.
Proof.
  intro H. destruct t as [|c t']; [discriminate|].
  exists c, t'. split; [reflexivity|].
  destruct (numeral c) eqn:E; [reflexivity|]. exfalso.
  unfold strconv.Atoi in H.
  destruct (Ascii.eqb c "-") eqn:Em;
    [apply Ascii.eqb_eq in Em; subst c; discriminate E|].
  destruct (Ascii.eqb c "+") eqn:Ep;
    [apply Ascii.eqb_eq in Ep; subst c; discriminate E|].
  assert (D : strconv.digit c = None).
  { clear H. destruct c as [[] [] [] [] [] [] [] []];
      try reflexivity; discriminate E. }
  assert (X : strconv.digits (String c t') 0 = None).
  { cbn [strconv.digits]. now rewrite D. }
  destruct c as [[] [] [] [] [] [] [] []];
    try discriminate Em; try discriminate Ep;
    rewrite X in H; discriminate H.
Qed.

(** An object that starts with a sign or a digit goes to
    [parseNumericOrIndRef]. *)
Lemma parseObjectWith_numeral aloop dloop (c : ascii) (s : string) :
  numeral c = true ->
  parseObjectWith aloop dloop (String c s)
  = match parseNumericOrIndRef (String c s) with
    | (Ok v, l) => Some (Ok v, l)
    | (Err e, _) => Some (Err e, String c s)
    | (Panic, _) => Some (Panic, String c s)
    end.
Proof.
  intro N.
  destruct (numeral_facts c N)
    as (S0 & A1 & A2 & A3 & A4 & A5 & A6 & A7 & _).
  unfold parseObjectWith.
  rewrite (trimLeftSpace_trimmed (String c s)) by (cbn; now rewrite S0).
  cbn [fst isEmpty at_ String.get HasPrefix].
  rewrite A1, A2, A3, A4, A5, A6, A7. cbn [andb]. reflexivity.
Qed.

Section IntegerArrays.

Lemma intsText_head (t : string) (n : Z) (tail : string)
  (ts : list string) :
  strconv.Atoi t = Ok n ->
  exists c s, intsText (t :: ts) ++ tail = String c s /\ numeral c = true.
Proof.
  intro H. destruct (Atoi_head _ _ H) as (c & t' & -> & N).
  exists c. destruct ts; cbn [intsText append]; eauto.
Qed.

Lemma numeric_element (t : string) (n : Z) (ts : list string)
  (ns : list Z) (rest : string) :
  strconv.Atoi t = Ok n -> tokens ts ns -> ts <> [] ->
  parseNumericOrIndRef (t ++ " " ++ intsText ts ++ "]" ++ rest)
  = (Ok (PDFInteger n), " " ++ intsText ts ++ "]" ++ rest).
Proof.
  intros Ht F Hne.
  destruct F as [|t2 n2 ts' ns' Ht2 F']; [congruence|].
  destruct F' as [|t3 n3 ts'' ns'' Ht3 F''].
  - cbn [intsText].
    exact (integer_integer_delimiter t n Ht " " t2 rest n2 "]"%char
             Ht2 eq_refl eq_refl eq_refl eq_refl).
  - destruct (intsText_head t3 n3 ("]" ++ rest) ts'' Ht3)
      as (c & s & E & N).
    change (intsText (t2 :: t3 :: ts''))
      with (t2 ++ " " ++ intsText (t3 :: ts'')).
    rewrite !append_assoc. rewrite E.
    assert (P1 : " " <> "") by discriminate.
    pose proof (parseNumericOrIndRef_third t t2 " " " " n n2
                  Ht Ht2 eq_refl eq_refl P1 P1 (String c s)) as P.
    destruct (numeral_facts c N) as (S0 & _ & _ & _ & _ & _ & _ & _ & _ & R).
    cbn [trimmed] in P. rewrite S0 in P. specialize (P eq_refl).
    cbv zeta in P. rewrite R in P. exact P.
Qed.

Lemma arrayLoop_integers (ts : list string) (ns : list Z) :
  tokens ts ns ->
  forall (k : nat) (arr : list PDFObject) (rest : string),
    arrayLoop (S (List.length ts) + k) (intsText ts ++ "]" ++ rest) arr
    = Some (Ok ((arr ++ map PDFInteger ns)%list, "]" ++ rest)).
Proof.
  induction 1 as [|t n ts' ns' Ht F IH]; intros k arr rest.
  - cbn [List.length Nat.add intsText map]. rewrite app_nil_r.
    apply arrayLoop_end.
  - destruct (Atoi_head _ _ Ht) as (c & t' & Et & N).
    destruct (numeral_facts c N)
      as (S0 & _ & _ & _ & _ & _ & _ & _ & B & _).
    cbn [List.length Nat.add]. rewrite arrayLoop_S.
    assert (E : parseNumericOrIndRef (intsText (t :: ts') ++ "]" ++ rest)
                = (Ok (PDFInteger n),
                   (if isEmpty (intsText ts') then "" else " ")
                   ++ intsText ts' ++ "]" ++ rest)).
    { destruct ts' as [|t2 r].
      - cbn [intsText isEmpty append].
        exact (integer_then_delimiter t n Ht "]"%char rest
                 eq_refl eq_refl).
      - change (intsText (t :: t2 :: r))
          with (t ++ " " ++ intsText (t2 :: r)).
        rewrite !append_assoc.
        rewrite (numeric_element t n (t2 :: r) ns' rest Ht F)
          by discriminate.
        inversion F; subst.
        destruct (intsText_head t2 y "" r H1) as (c2 & s2 & E2 & _).
        rewrite append_empty in E2. rewrite E2. reflexivity. }
    assert (Hd : exists s, intsText (t :: ts') ++ "]" ++ rest = String c s).
    { subst t. destruct ts'; cbn [intsText append]; eauto. }
    destruct Hd as [s Hd]. rewrite Hd in *.
    cbn [HasPrefix]. rewrite B. cbn [andb].
    rewrite (parseObjectWith_numeral _ _ c s N), E.
    cbv zeta.
    destruct ts' as [|t2 r].
    + inversion F; subst. cbn [isEmpty intsText append map].
      rewrite (trimLeftSpace_trimmed (String "]" rest)) by reflexivity.
      cbn [fst isEmpty append]. apply (arrayLoop_end (0 + k)).
    + inversion F as [|? n2 ? ns'' Ht2 F2]; subst.
      destruct (intsText_head t2 n2 ("]" ++ rest) r Ht2)
        as (c2 & s2 & E2 & N2).
      destruct (numeral_facts c2 N2) as (S2 & _).
      assert (Ie : isEmpty (intsText (t2 :: r)) = false).
      { destruct (intsText_head t2 n2 "" r Ht2) as (c3 & s3 & E3 & _).
        rewrite append_empty in E3. now rewrite E3. }
      rewrite Ie. cbn [append isEmpty].
      change (String " " (intsText (t2 :: r) ++ String "]" rest))
        with (" " ++ intsText (t2 :: r) ++ "]" ++ rest).
      rewrite (trimLeftSpace_app " " _ eq_refl)
        by (rewrite E2; cbn; now rewrite S2).
      rewrite E2 at 1. cbn [isEmpty].
      pose proof (IH k (arr ++ [PDFInteger n])%list rest) as IH'.
      rewrite <- app_assoc in IH'. exact IH'.
Qed.

End IntegerArrays.

(** X8.  An array of integers written with one blank between them parses
    to those integers, in order, with the cursor behind the closing bracket:
    the lookahead for an indirect reference never takes two of them
    together.  The loop needs one unit of fuel more than there are
    elements. *)
Theorem parseArray_of_integers
  (fuel : nat) (ts : list string) (ns : list Z) (rest : string)
  (Ht : tokens ts ns) (Hf : (List.length ts < fuel)%nat) :
  parseArray fuel ("[" ++ intsText ts ++ "]" ++ rest)
  = Some (Ok (map PDFInteger ns), rest)
  /\ parseObject fuel ("[" ++ intsText ts ++ "]" ++ rest)
     = Some (Ok (PDFArray (map PDFInteger ns)), rest).
Proof.
  assert (A : parseArray fuel ("[" ++ intsText ts ++ "]" ++ rest)
              = Some (Ok (map PDFInteger ns), rest)).
  { replace fuel with (S (List.length ts) + (fuel - S (List.length ts)))%nat
      by lia.
    unfold parseArray, parseArrayWith.
    assert (L : (len ("[" ++ intsText ts ++ "]" ++ rest) =? 1)%nat = false).
    { apply Nat.eqb_neq. rewrite !len_app. cbn [len String.length]. lia. }
    change (isEmpty ("[" ++ intsText ts ++ "]" ++ rest)) with false.
    change (HasPrefix ("[" ++ intsText ts ++ "]" ++ rest) "[") with true.
    cbv iota. cbn [negb].
    rewrite L, (forwardParseBuf_app "[").
    assert (T : trimmed (intsText ts ++ "]" ++ rest) = true).
    { destruct Ht as [|t n ts' ns' H1 _]; [reflexivity|].
      destruct (intsText_head t n ("]" ++ rest) ts' H1) as (c & s & E & N).
      rewrite E. cbn. destruct (numeral_facts c N) as [S0 _].
      now rewrite S0. }
    rewrite (trimLeftSpace_trimmed _ T). cbn [fst].
    assert (Ne : isEmpty (intsText ts ++ "]" ++ rest) = false).
    { rewrite isEmpty_app. cbn. apply andb_false_r. }
    rewrite Ne.
    rewrite (arrayLoop_integers ts ns Ht).
    now rewrite (forwardParseBuf_app "]"). }
  split; [exact A|].
  unfold parseArray in A. unfold parseObject, parseObjectWith.
  rewrite (trimLeftSpace_trimmed ("[" ++ intsText ts ++ "]" ++ rest)
             eq_refl).
  cbn [fst].
  change (isEmpty ("[" ++ intsText ts ++ "]" ++ rest)) with false.
  change (at_ ("[" ++ intsText ts ++ "]" ++ rest) 0) with (Some "["%char).
  cbv iota beta. change (Ascii.eqb "[" "[") with true. cbv iota.
  now rewrite A.
Qed.

Lemma parseArray_of_integers_witness :
  tokens ["0"; "0"; "612"; "-792"] [0; 0; 612; -792]
  /\ (List.length ["0"; "0"; "612"; "-792"] < 5)%nat
  /\ parseArray 5 ("[" ++ intsText ["0"; "0"; "612"; "-792"] ++ "]" ++ ">>")
     = Some (Ok (map PDFInteger [0; 0; 612; -792]), ">>").
Proof.
  assert (T : tokens ["0"; "0"; "612"; "-792"] [0; 0; 612; -792]).
  { repeat constructor. }
  assert (L : (List.length ["0"; "0"; "612"; "-792"] < 5)%nat).
  { apply Nat.ltb_lt. reflexivity. }
  split; [exact T|]. split; [exact L|].
  exact (proj1 (parseArray_of_integers
                  5 ["0"; "0"; "612"; "-792"] [0; 0; 612; -792] ">>" T L)).
Defined.

(** ** Buffers on which the array loop does not end *)

Lemma arrayLoop_never_ends
  (t1 ws1 t2 ws2 : string) (n1 n2 : Z) :
  strconv.Atoi t1 = Ok n1 -> strconv.Atoi t2 = Ok n2 ->
  allSpace ws1 = true -> isEmpty ws1 = false ->
  allSpace ws2 = true -> isEmpty ws2 = false ->
  forall (fuel : nat) (arr : list PDFObject),
    arrayLoop fuel (t1 ++ ws1 ++ t2 ++ ws2) arr = None.
Proof.
  intros H1 H2 W1 E1 W2 E2.
  pose proof (parseNumericOrIndRef_only_whitespace_after_second
                t1 ws1 t2 ws2 n1 n2 H1 H2 W1 E1 W2 E2) as P.
  destruct (Atoi_head _ _ H1) as (c & t' & -> & N).
  destruct (numeral_facts c N) as (S0 & _ & _ & _ & _ & _ & _ & _ & B & _).
  cbn [append] in *.
  induction fuel as [|fuel IH]; intro arr; [reflexivity|].
  rewrite arrayLoop_S. cbn [HasPrefix]. rewrite B. cbn [andb].
  rewrite (parseObjectWith_numeral _ _ c _ N), P. cbv zeta.
  cbn [isEmpty].
  rewrite (trimLeftSpace_trimmed (String c _)) by (cbn; now rewrite S0).
  cbn [fst isEmpty]. apply IH.
Qed.

(** X9.  An array whose buffer ends, after an opening bracket and optional
    whitespace, with two integers and whitespace is never parsed to an end:
    with no amount of fuel does [parseArray] return, neither a value nor an
    error. *)
Theorem parseArray_does_not_return
  (fuel : nat) (ws0 t1 ws1 t2 ws2 : string) (n1 n2 : Z)
  (Ht1 : strconv.Atoi t1 = Ok n1) (Ht2 : strconv.Atoi t2 = Ok n2)
  (Hws0 : allSpace ws0 = true)
  (Hws1 : allSpace ws1 = true) (Hne1 : isEmpty ws1 = false)
  (Hws2 : allSpace ws2 = true) (Hne2 : isEmpty ws2 = false) :
  parseArray fuel ("[" ++ ws0 ++ t1 ++ ws1 ++ t2 ++ ws2) = None.
Proof.
  unfold parseArray, parseArrayWith.
  destruct (Atoi_head _ _ Ht1) as (c & t' & Et & N).
  destruct (numeral_facts c N) as (S0 & _).
  assert (L : (len ("[" ++ ws0 ++ t1 ++ ws1 ++ t2 ++ ws2) =? 1)%nat = false).
  { apply Nat.eqb_neq. rewrite !len_app. subst t1.
    cbn [len String.length]. lia. }
  change (isEmpty ("[" ++ ws0 ++ t1 ++ ws1 ++ t2 ++ ws2)) with false.
  change (HasPrefix ("[" ++ ws0 ++ t1 ++ ws1 ++ t2 ++ ws2) "[") with true.
  cbv iota. cbn [negb].
  rewrite L, (forwardParseBuf_app "[").
  assert (T : trimmed (t1 ++ ws1 ++ t2 ++ ws2) = true).
  { subst t1. cbn. now rewrite S0. }
  rewrite (trimLeftSpace_app ws0 _ Hws0 T).
  assert (Ne : isEmpty (t1 ++ ws1 ++ t2 ++ ws2) = false)
    by (subst t1; reflexivity).
  rewrite Ne.
  now rewrite (arrayLoop_never_ends t1 ws1 t2 ws2 n1 n2).
Qed.

Lemma parseArray_does_not_return_witness :
  strconv.Atoi "7" = Ok 7 /\ strconv.Atoi "0" = Ok 0
  /\ allSpace "" = true /\ allSpace " " = true /\ isEmpty " " = false
  /\ parseArray 1000 ("[" ++ "" ++ "7" ++ " " ++ "0" ++ " ") = None.
Proof.
  do 5 (split; [reflexivity|]).
  exact (parseArray_does_not_return 1000 "" "7" " " "0" " " 7 0
           eq_refl eq_refl eq_refl eq_refl eq_refl eq_refl eq_refl).
Defined.

(** ** Searching a buffer *)

Section IndexFacts.

Local Open Scope nat_scope.

Lemma HasPrefix_app (p r : string) : HasPrefix (p ++ r) p = true.
Proof.
  induction p as [|c p IH]; [reflexivity|].
  cbn [append HasPrefix]. now rewrite Ascii.eqb_refl, IH.
Qed.

Lemma HasPrefix_sound (s p : string) :
  HasPrefix s p = true -> s = p ++ drop (len p) s.
Proof.
  revert s. induction p as [|a p IH]; intros s H; [reflexivity|].
  destruct s as [|b s]; [discriminate|].
  cbn [HasPrefix] in H. apply andb_prop in H. destruct H as [E H].
  apply Ascii.eqb_eq in E. subst b.
  cbn [append len String.length drop]. f_equal. exact (IH _ H).
Qed.

Lemma Index_cons (c : ascii) (s sub : string) :
  Index (String c s) sub
  = if HasPrefix (String c s) sub then Some 0
    else option_map S (Index s sub).
Proof. reflexivity. Qed.

(** [Index] finds an occurrence. *)
Lemma Index_sound (s sub : string) (i : nat) :
  Index s sub = Some i -> s = take i s ++ sub ++ drop (i + len sub) s.
Proof.
  revert i. induction s as [|c s IH]; intros i H.
  - cbn [Index] in H. destruct (HasPrefix "" sub) eqn:P; [|discriminate].
    injection H as <-. exact (HasPrefix_sound _ _ P).
  - rewrite Index_cons in H.
    destruct (HasPrefix (String c s) sub) eqn:P.
    + injection H as <-. exact (HasPrefix_sound _ _ P).
    + destruct (Index s sub) as [j|] eqn:J; [|discriminate].
      injection H as <-. cbn [take drop append Nat.add].
      f_equal. exact (IH j eq_refl).
Qed.

(** [Index] finds the first occurrence, and finds one if there is one. *)
Lemma Index_first (p sub r : string) :
  exists i, Index (p ++ sub ++ r) sub = Some i /\ i <= len p.
Proof.
  induction p as [|c p [i [IH L]]].
  - exists 0. split; [|simpl; lia].
    cbn [append]. destruct (sub ++ r) eqn:E.
    + cbn [Index]. destruct sub; [reflexivity | discriminate].
    + rewrite Index_cons, <- E, HasPrefix_app. reflexivity.
  - cbn [append]. rewrite Index_cons.
    destruct (HasPrefix _ sub).
    + exists 0. split; [reflexivity | lia].
    + exists (S i). rewrite IH. split; [reflexivity | simpl; lia].
Qed.

(** A prefix without the first character of [sub] is skipped whole. *)
Lemma Index_skip (p r : string) (a : ascii) (sub : string) :
  mem a p = false ->
  Index (p ++ String a sub ++ r) (String a sub) = Some (len p).
Proof.
  intro H. induction p as [|c p IH].
  - cbn [append]. rewrite Index_cons.
    change (String a (sub ++ r)) with (String a sub ++ r).
    now rewrite (HasPrefix_app (String a sub) r).
  - cbn [mem] in H. apply orb_false_iff in H. destruct H as [E H].
    change (String c p ++ String a sub ++ r)
      with (String c (p ++ String a sub ++ r)).
    rewrite Index_cons. cbn [HasPrefix].
    rewrite E. cbn [andb]. now rewrite (IH H).
Qed.

Lemma len_take_le (n : nat) (s : string) : len (take n s) <= n.
Proof.
  revert s. induction n as [|n IH]; intros [|c s];
    cbn [take len String.length]; try lia.
  specialize (IH s). unfold len in IH. lia.
Qed.

Lemma mem_app (c : ascii) (s t : string) :
  mem c (s ++ t) = mem c s || mem c t.
Proof.
  induction s as [|d s IH]; [reflexivity|].
  cbn [append mem]. now rewrite IH, orb_assoc.
Qed.

End IndexFacts.

(** ** Integer tokens, character by character *)

Lemma digit_numeral (c : ascii) (d : Z) :
  strconv.digit c = Some d -> numeral c = true.
Proof.
  destruct c as [[] [] [] [] [] [] [] []]; vm_compute; congruence.
Qed.

Lemma digits_numerals (s : string) (acc n : Z) :
  strconv.digits s acc = Some n -> numerals s = true.
Proof.
  revert acc. induction s as [|c s IH]; intros acc H; [reflexivity|].
  cbn [strconv.digits] in H. cbn [numerals].
  destruct (strconv.digit c) as [d|] eqn:E; [|discriminate].
  now rewrite (digit_numeral _ _ E), (IH _ H).
Qed.

Lemma Atoi_numerals (t : string) (n : Z) :
  strconv.Atoi t = Ok n -> numerals t = true.
Proof.
  intro H. destruct (Atoi_head _ _ H) as (c & t' & -> & N).
  cbn [numerals]. rewrite N. cbn [andb].
  unfold strconv.Atoi in H.
  destruct (Ascii.eqb c "-") eqn:Em;
    [apply Ascii.eqb_eq in Em; subst c|].
  { destruct t'; [discriminate|].
    destruct (strconv.digits (String a t') 0) eqn:E; [|discriminate].
    exact (digits_numerals _ _ _ E). }
  destruct (Ascii.eqb c "+") eqn:Ep;
    [apply Ascii.eqb_eq in Ep; subst c|].
  { destruct t'; [discriminate|].
    destruct (strconv.digits (String a t') 0) eqn:E; [|discriminate].
    exact (digits_numerals _ _ _ E). }
  assert (Hd : exists m, strconv.digits (String c t') 0 = Some m).
  { destruct c as [[] [] [] [] [] [] [] []];
      try discriminate Em; try discriminate Ep;
      (destruct (strconv.digits _ 0) eqn:E; [eauto | discriminate]). }
  destruct Hd as [m Hd]. apply digits_numerals in Hd.
  cbn [numerals] in Hd. apply andb_prop in Hd. tauto.
Qed.

Lemma numeral_not_o_percent (c : ascii) :
  numeral c = true ->
  Ascii.eqb "o" c = false /\ negb (IsSpace c || mem c "%") = true.
Proof.
  destruct c as [[] [] [] [] [] [] [] []]; vm_compute;
    intuition congruence.
Qed.

Lemma space_not_o (c : ascii) : IsSpace c = true -> Ascii.eqb "o" c = false.
Proof.
  destruct c as [[] [] [] [] [] [] [] []]; vm_compute; congruence.
Qed.

Lemma numerals_facts (t : string) :
  numerals t = true -> mem "o" t = false /\ plain "%" t = true.
Proof.
  induction t as [|c t IH]; intro H; [split; reflexivity|].
  cbn [numerals] in H. apply andb_prop in H. destruct H as [N H].
  destruct (IH H) as [M P].
  destruct (numeral_not_o_percent c N) as [O Q].
  change (mem "o" (String c t)) with (Ascii.eqb "o" c || mem "o" t).
  rewrite plain_cons, O, M, Q, P. split; reflexivity.
Qed.

Lemma allSpace_no_o (ws : string) : allSpace ws = true -> mem "o" ws = false.
Proof.
  induction ws as [|c ws IH]; intro H; [reflexivity|].
  cbn [allSpace] in H. apply andb_prop in H. destruct H as [C H].
  cbn [mem]. now rewrite (space_not_o c C), (IH H).
Qed.

(** ** Object attributes *)

(** X10.  On a header made of optional whitespace, the object number,
    whitespace, the generation number, whitespace and [obj],
    [parseObjectAttributes] returns the two numbers and leaves the buffer
    right behind [obj]. *)
Theorem parseObjectAttributes_reads_header
  (ws0 t1 ws1 t2 ws2 rest : string) (n1 n2 : Z)
  (Ht1 : strconv.Atoi t1 = Ok n1) (Ht2 : strconv.Atoi t2 = Ok n2)
  (Hws0 : allSpace ws0 = true)
  (Hws1 : allSpace ws1 = true) (Hne1 : isEmpty ws1 = false)
  (Hws2 : allSpace ws2 = true) (Hne2 : isEmpty ws2 = false) :
  parseObjectAttributes (ws0 ++ t1 ++ ws1 ++ t2 ++ ws2 ++ "obj" ++ rest)
  = (Ok (n1, n2), rest).
Proof.
  pose proof (Atoi_numerals _ _ Ht1) as N1.
  pose proof (Atoi_numerals _ _ Ht2) as N2.
  destruct (numerals_facts _ N1) as [O1 P1].
  destruct (numerals_facts _ N2) as [O2 P2].
  destruct (Atoi_head _ _ Ht1) as (c1 & s1 & E1 & C1).
  destruct (Atoi_head _ _ Ht2) as (c2 & s2 & E2 & C2).
  destruct (numeral_facts c1 C1) as [S1 _].
  destruct (numeral_facts c2 C2) as [S2 _].
  destruct ws1 as [|w1 r1]; [discriminate|].
  destruct ws2 as [|w2 r2]; [discriminate|].
  pose proof Hws1 as Hws1'. pose proof Hws2 as Hws2'.
  cbn [allSpace] in Hws1', Hws2'.
  apply andb_prop in Hws1'. destruct Hws1' as [W1 _].
  apply andb_prop in Hws2'. destruct Hws2' as [W2 _].
  set (header := ws0 ++ t1 ++ String w1 r1 ++ t2 ++ String w2 r2).
  assert (L : ws0 ++ t1 ++ String w1 r1 ++ t2 ++ String w2 r2
                  ++ "obj" ++ rest
              = header ++ "obj" ++ rest).
  { unfold header. now rewrite !append_assoc. }
  rewrite L.
  assert (M : mem "o" header = false).
  { unfold header. rewrite !mem_app.
    now rewrite (allSpace_no_o _ Hws0), O1, (allSpace_no_o _ Hws1), O2,
      (allSpace_no_o _ Hws2). }
  unfold parseObjectAttributes.
  assert (Ne : isEmpty (header ++ "obj" ++ rest) = false).
  { rewrite isEmpty_app. apply andb_false_r. }
  rewrite Ne, (Index_skip header rest "o" "bj" M).
  rewrite take_app.
  replace (len header + len "obj")%nat with (len (header ++ "obj"))
    by apply len_app.
  rewrite <- (append_assoc header "obj" rest), drop_app.
  unfold header.
  rewrite (trimLeftSpace_app ws0 _ Hws0)
    by (rewrite E1; cbn; now rewrite S1).
  assert (Ne1 : isEmpty (t1 ++ String w1 r1 ++ t2 ++ String w2 r2) = false)
    by (rewrite E1; reflexivity).
  rewrite Ne1.
  assert (St1 : IsSpace w1 || mem w1 "%" = true) by now rewrite W1.
  assert (St2 : IsSpace w2 || mem w2 "%" = true) by now rewrite W2.
  cbn [append].
  rewrite (position_token _ _ _ _ P1 St1).
  assert (Z1 : (len t1 =? 0)%nat = false) by (rewrite E1; reflexivity).
  assert (Z2 : (len t2 =? 0)%nat = false) by (rewrite E2; reflexivity).
  rewrite Z1, take_app, Ht1, drop_app.
  assert (T : fst (trimLeftSpace (String w1 (r1 ++ t2 ++ String w2 r2)))
              = t2 ++ String w2 r2).
  { apply (trimLeftSpace_app (String w1 r1) _ Hws1).
    rewrite E2. cbn. now rewrite S2. }
  rewrite T, isEmpty_app_cons, (position_token _ _ _ _ P2 St2).
  now rewrite Z2, take_app, Ht2.
Qed.

Lemma parseObjectAttributes_reads_header_witness :
  strconv.Atoi "12" = Ok 12 /\ strconv.Atoi "0" = Ok 0
  /\ allSpace "" = true /\ allSpace " " = true /\ isEmpty " " = false
  /\ parseObjectAttributes
       ("" ++ "12" ++ " " ++ "0" ++ " " ++ "obj" ++ "<</Length 8>>")
     = (Ok (12, 0), "<</Length 8>>").
Proof.
  do 5 (split; [reflexivity|]).
  exact (parseObjectAttributes_reads_header "" "12" " " "0" " " "<</Length 8>>"
           12 0 eq_refl eq_refl eq_refl eq_refl eq_refl eq_refl eq_refl).
Defined.

(** X11.  When [parseObjectAttributes] returns the two numbers, the buffer
    it leaves is what follows the first [obj] of the buffer it was given. *)
Theorem parseObjectAttributes_splits_at_first_obj
  (line rest : string) (v : Z * Z)
  (H : parseObjectAttributes line = (Ok v, rest)) :
  exists header : string,
    line = header ++ "obj" ++ rest
    /\ forall p r, line = p ++ "obj" ++ r -> (len header <= len p)%nat.
Proof.
  revert H. unfold parseObjectAttributes.
  destruct (isEmpty line); [discriminate|].
  destruct (Index line "obj") as [i|] eqn:I; [|discriminate].
  intro H.
  assert (R : rest = drop (i + len "obj") line).
  { revert H. cbv zeta. split_cases.
    all: let H := fresh in
         intro H; solve [discriminate H | inversion H; reflexivity]. }
  exists (take i line). split.
  - rewrite R. exact (Index_sound _ _ _ I).
  - intros p r E. destruct (Index_first p "obj" r) as [j [J Lj]].
    rewrite <- E, I in J. injection J as <-.
    pose proof (len_take_le i line). lia.
Qed.

Lemma parseObjectAttributes_splits_at_first_obj_witness :
  parseObjectAttributes "3 0 obj (an obj)" = (Ok (3, 0), " (an obj)")
  /\ exists header : string,
       "3 0 obj (an obj)" = header ++ "obj" ++ " (an obj)"
       /\ forall p r, "3 0 obj (an obj)" = p ++ "obj" ++ r ->
                      (len header <= len p)%nat.
Proof.
  split; [reflexivity|].
  exact (parseObjectAttributes_splits_at_first_obj
           "3 0 obj (an obj)" " (an obj)" (3, 0) eq_refl).
Defined.

(** X12.  On a buffer that is not empty and holds no [obj] at all,
    [parseObjectAttributes] fails and says that it cannot find one. *)
Theorem parseObjectAttributes_without_obj
  (line : string)
  (Hne : isEmpty line = false)
  (Hno : forall p r : string, line <> p ++ "obj" ++ r) :
  parseObjectAttributes line
  = (Err (errorsNew ("ParseObjectAttributes: can't find "
                       ++ quote ++ "obj" ++ quote)), line).
Proof.
  unfold parseObjectAttributes. rewrite Hne.
  destruct (Index line "obj") as [i|] eqn:I; [|reflexivity].
  exfalso. exact (Hno _ _ (Index_sound _ _ _ I)).
Qed.

Lemma parseObjectAttributes_without_obj_witness :
  isEmpty "12 0 R" = false
  /\ (forall p r : string, "12 0 R" <> p ++ "obj" ++ r)
  /\ parseObjectAttributes "12 0 R"
     = (Err (errorsNew ("ParseObjectAttributes: can't find "
                          ++ quote ++ "obj" ++ quote)), "12 0 R").
Proof.
  assert (N : forall p r : string, "12 0 R" <> p ++ "obj" ++ r).
  { intros p r E. destruct (Index_first p "obj" r) as [j [J _]].
    rewrite <- E in J. discriminate J. }
  split; [reflexivity|]. split; [exact N|].
  exact (parseObjectAttributes_without_obj "12 0 R" eq_refl N).
Defined.

(** ** The cross-reference stream decoder as a whole *)

Lemma width_cases (arr : list PDFObject) (k : nat) :
  (exists i, nth_error arr k = Some (PDFInteger i) /\ 0 <= i
             /\ width arr k = Ok i)
  \/ (width arr k = Err errXrefStreamCorruptW)
  \/ (nth_error arr k = None /\ width arr k = Panic).
Proof.
  unfold width. destruct (nth_error arr k) as [o|]; [|auto].
  destruct o; auto.
  destruct (i <? 0) eqn:E; [auto|].
  apply Z.ltb_ge in E. left. eauto.
Qed.

Lemma xrefWidths_ok (w : option (list PDFObject)) (i1 i2 i3 : Z) :
  xrefWidths w = Ok (i1, i2, i3) ->
  w = Some [PDFInteger i1; PDFInteger i2; PDFInteger i3]
  /\ 0 <= i1 /\ 0 <= i2 /\ 0 <= i3.
Proof.
  unfold xrefWidths. destruct w as [arr|]; [|discriminate].
  destruct (List.length arr =? 3)%nat eqn:L; [|discriminate].
  apply Nat.eqb_eq in L.
  destruct arr as [|a [|b [|c [|? ?]]]]; try discriminate L.
  cbn [negb].
  destruct (width_cases [a; b; c] 0) as [(x & N0 & P0 & ->)|[->| [_ ->]]];
    try discriminate.
  destruct (width_cases [a; b; c] 1) as [(y & N1 & P1 & ->)|[->| [_ ->]]];
    try discriminate.
  destruct (width_cases [a; b; c] 2) as [(z & N2 & P2 & ->)|[->| [_ ->]]];
    try discriminate.
  intro H. injection H as <- <- <-.
  cbn in N0, N1, N2. injection N0 as ->. injection N1 as ->.
  injection N2 as ->. auto.
Qed.

Lemma xrefWidths_no_panic (w : option (list PDFObject)) :
  xrefWidths w <> Panic.
Proof.
  unfold xrefWidths. destruct w as [arr|]; [|discriminate].
  destruct (List.length arr =? 3)%nat eqn:L; [|discriminate].
  apply Nat.eqb_eq in L.
  destruct arr as [|a [|b [|c [|? ?]]]]; try discriminate L.
  cbn [negb].
  destruct (width_cases [a; b; c] 0) as [(x & _ & _ & ->)|[->| [N _]]];
    try discriminate.
  destruct (width_cases [a; b; c] 1) as [(y & _ & _ & ->)|[->| [N _]]];
    try discriminate.
  destruct (width_cases [a; b; c] 2) as [(z & _ & _ & ->)|[->| [N _]]];
    discriminate.
Qed.

Lemma xrefObjects_no_panic (size : Z) (pIndArr : option (list PDFObject)) :
  xrefObjects size pIndArr <> Panic.
Proof.
  destruct pIndArr as [indArr|].
  - rewrite xrefObjects_index. now destruct (indexPairs indArr).
  - now rewrite xrefObjects_size.
Qed.

(** X13.  [parseXRefStreamDict] builds a descriptor exactly when [Size] is
    present, every element of a pair of [Index] (if [Index] is present) is
    an integer, and [W] is an array of three integers none of which is
    negative.  In every other case it returns an error: no index into
    [Index] or [W] is ever out of range. *)
Theorem parseXRefStreamDict_succeeds_iff (d : PDFStreamDict.t) :
  ((exists x, parseXRefStreamDict d = Ok x)
   <-> (PDFStreamDict.Size d <> None
        /\ match PDFStreamDict.Index d with
           | Some indArr => indexPairs indArr <> None
           | None => True
           end
        /\ exists i1 i2 i3 : Z,
             PDFStreamDict.W d
             = Some [PDFInteger i1; PDFInteger i2; PDFInteger i3]
             /\ 0 <= i1 /\ 0 <= i2 /\ 0 <= i3))
  /\ parseXRefStreamDict d <> Panic.
Proof.
  split; [split|].
  - intros [x H]. unfold parseXRefStreamDict in H.
    destruct (PDFStreamDict.Size d) as [size|]; [|discriminate].
    split; [discriminate|].
    destruct (xrefObjects size (PDFStreamDict.Index d)) as [objs| |] eqn:O;
      try discriminate.
    destruct (xrefWidths (PDFStreamDict.W d)) as [[[i1 i2] i3]| |] eqn:Wd;
      try discriminate.
    split.
    + destruct (PDFStreamDict.Index d) as [indArr|]; [|exact I].
      rewrite xrefObjects_index in O.
      destruct (indexPairs indArr); [discriminate | discriminate O].
    + exists i1, i2, i3. exact (xrefWidths_ok _ _ _ _ Wd).
  - intros (HS & HI & i1 & i2 & i3 & HW & P1 & P2 & P3).
    destruct (PDFStreamDict.Size d) as [size|] eqn:S0; [|congruence].
    assert (O : exists objs,
               xrefObjects size (PDFStreamDict.Index d) = Ok objs).
    { destruct (PDFStreamDict.Index d) as [indArr|].
      - rewrite xrefObjects_index.
        destruct (indexPairs indArr); [eauto | congruence].
      - rewrite xrefObjects_size. eauto. }
    destruct O as [objs O].
    unfold parseXRefStreamDict. rewrite S0, O, HW.
    apply Z.ltb_ge in P1, P2, P3.
    cbn [xrefWidths List.length Nat.eqb negb width nth_error].
    rewrite P1, P2, P3. eauto.
  - unfold parseXRefStreamDict.
    destruct (PDFStreamDict.Size d) as [size|]; [|discriminate].
    destruct (xrefObjects size (PDFStreamDict.Index d)) eqn:O;
      try discriminate.
    + destruct (xrefWidths (PDFStreamDict.W d)) eqn:Wd; try discriminate.
      exact (fun _ => xrefWidths_no_panic _ Wd).
    + exact (fun _ => xrefObjects_no_panic _ _ O).
Qed.

(** ** [forwardParseBuf] *)


(** ** Dictionaries that do not parse *)


Lemma parseDict_opens (loop : string -> dict -> looped dict)
  (ws x : string) :
  allSpace ws = true -> trimmed x = true -> isEmpty x = false ->
  (2 <=? len ws + len x)%nat = true ->
  parseDictWith loop ("<<" ++ ws ++ x)
  = match loop x NewPDFDict with
    | None => None
    | Some (Err e) => Some (Err e, "<<" ++ ws ++ x)
    | Some Panic => Some (Panic, "<<" ++ ws ++ x)
    | Some (Ok (d, l)) => Some (Ok d, forwardParseBuf l 2)
    end.
Proof.
  intros Hws Hx Hne Hl. unfold parseDictWith.
  assert (L : (len ("<<" ++ ws ++ x) <? 4)%nat = false).
  { apply Nat.ltb_ge. apply Nat.leb_le in Hl. rewrite !len_app.
    cbn [len String.length]. lia. }
  rewrite L, (forwardParseBuf_app "<<"), (trimLeftSpace_app ws x Hws Hx), Hne.
  reflexivity.
Qed.



(** ** Hex literals without an end *)




(** ** Dictionaries of integers *)

Lemma hasKey_map (d : dict) (k : string) :
  hasKey d k = existsb (fun x => String.eqb x k) (map fst d).
Proof.
  unfold hasKey. induction d as [|kv d IH]; [reflexivity|].
  cbn [map existsb]. now rewrite IH.
Qed.

Lemma distinct_before (A R : list string) (k : string) :
  distinct (A ++ k :: R) = true ->
  existsb (fun x => String.eqb x k) A = false.
Proof.
  induction A as [|a A IH]; intro H; [reflexivity|].
  cbn [app distinct] in H. apply andb_prop in H. destruct H as [N H].
  apply negb_true_iff in N. rewrite existsb_app in N.
  apply orb_false_iff in N. destruct N as [_ N].
  cbn [existsb] in *. apply orb_false_iff in N. destruct N as [N _].
  now rewrite N, (IH H).
Qed.

Lemma dictText_head (es : list intEntry) (rest : string) :
  exists c s, dictText es ++ ">>" ++ rest = String c s
              /\ IsSpace c = false /\ mem c "/<([]>" = true.
Proof.
  destruct es as [|e r]; cbn [dictText append]; eauto.
Qed.

Lemma dictLoop_entries (es : list intEntry) :
  Forall entryOk es ->
  forall (d : dict) (k : nat) (rest : string),
    distinct (map fst d ++ map keyOf es) = true ->
    dictLoop (S (List.length es) + k) (dictText es ++ ">>" ++ rest) d
    = Some (Ok ((d ++ dictOf es)%list, ">>" ++ rest)).
Proof.
  induction 1 as [|e r [Hk [Hnk Ht]] F IH]; intros d k rest D.
  - cbn [List.length Nat.add dictText dictOf map]. rewrite app_nil_r.
    apply dictLoop_end.
  - destruct (dictText_head r rest) as (c & y & EY & Sc & Mc).
    destruct (Atoi_head _ _ Ht) as (c1 & t' & Et & N1).
    destruct (numeral_facts c1 N1) as [S1 _].
    cbn [List.length Nat.add]. rewrite dictLoop_S.
    assert (ET : dictText (e :: r) ++ ">>" ++ rest
                 = "/" ++ keyOf e ++ " " ++ snd (fst e) ++ String c y).
    { cbn [dictText]. rewrite !append_assoc. now rewrite EY. }
    rewrite ET.
    change (HasPrefix ("/" ++ keyOf e ++ " " ++ snd (fst e) ++ String c y)
              ">>") with false.
    cbv iota.
    rewrite (parseName_body (keyOf e) (" " ++ snd (fst e) ++ String c y)
               Hk Hnk eq_refl).
    cbv zeta.
    rewrite (trimLeftSpace_app " " (snd (fst e) ++ String c y) eq_refl)
      by (rewrite Et; cbn; now rewrite S1).
    rewrite isEmpty_app_cons.
    assert (EN : snd (fst e) ++ String c y = String c1 (t' ++ String c y))
      by now rewrite Et.
    rewrite EN, (parseObjectWith_numeral _ _ c1 _ N1), <- EN.
    rewrite (integer_then_delimiter _ _ Ht c y Sc Mc).
    unfold Insert. rewrite hasKey_map.
    rewrite (distinct_before _ _ _ D : existsb _ (map fst d) = false).
    cbn [isEmpty].
    rewrite (trimLeftSpace_trimmed (String c y))
      by (cbn; now rewrite Sc).
    cbn [fst isEmpty]. rewrite <- EY.
    change (S (List.length r + k)) with (S (List.length r) + k)%nat.
    rewrite (IH (d ++ [(keyOf e, PDFInteger (snd e))])%list k rest).
    + cbn [dictOf map]. now rewrite <- app_assoc.
    + rewrite map_app, <- app_assoc. exact D.
Qed.

(** X17.  A dictionary whose entries are names with integer values, the
    keys all different, parses to exactly those entries in the order they
    are written, with the cursor behind the closing [>>].  The loop needs
    one unit of fuel more than there are entries. *)
Theorem parseDict_of_integers
  (fuel : nat) (es : list intEntry) (rest : string)
  (Hes : Forall entryOk es)
  (Hd : distinct (map keyOf es) = true)
  (Hf : (List.length es < fuel)%nat) :
  parseDict fuel ("<<" ++ dictText es ++ ">>" ++ rest)
  = Some (Ok (dictOf es), rest)
  /\ parseObject fuel ("<<" ++ dictText es ++ ">>" ++ rest)
     = Some (Ok (PDFDict (dictOf es)), rest).
Proof.
  assert (A : parseDict fuel ("<<" ++ dictText es ++ ">>" ++ rest)
              = Some (Ok (dictOf es), rest)).
  { replace fuel with (S (List.length es) + (fuel - S (List.length es)))%nat
      by lia.
    destruct (dictText_head es rest) as (c & y & EY & Sc & Mc).
    unfold parseDict.
    pose proof (parseDict_opens
                  (dictLoop (S (List.length es)
                             + (fuel - S (List.length es))))
                  "" (dictText es ++ ">>" ++ rest) eq_refl) as O.
    change ("<<" ++ "" ++ dictText es ++ ">>" ++ rest)
      with ("<<" ++ dictText es ++ ">>" ++ rest) in O.
    rewrite O.
    - rewrite (dictLoop_entries es Hes NewPDFDict _ rest Hd).
      now rewrite (forwardParseBuf_app ">>").
    - rewrite EY. cbn. now rewrite Sc.
    - now rewrite EY.
    - apply Nat.leb_le. rewrite !len_app. cbn [len String.length]. lia. }
  split; [exact A|].
  unfold parseDict in A. unfold parseObject, parseObjectWith.
  rewrite (trimLeftSpace_trimmed ("<<" ++ dictText es ++ ">>" ++ rest)
             eq_refl).
  cbn [fst].
  change (isEmpty ("<<" ++ dictText es ++ ">>" ++ rest)) with false.
  change (at_ ("<<" ++ dictText es ++ ">>" ++ rest) 0) with (Some "<"%char).
  change (at_ ("<<" ++ dictText es ++ ">>" ++ rest) 1) with (Some "<"%char).
  change (len ("<<" ++ dictText es ++ ">>" ++ rest) <? 2)%nat with false.
  cbv iota beta.
  change (Ascii.eqb "<" "[") with false.
  change (Ascii.eqb "<" "/") with false.
  change (Ascii.eqb "<" "<") with true.
  cbv iota. now rewrite A.
Qed.

Lemma parseDict_of_integers_witness :
  Forall entryOk [("Length", "42", 42); ("N", "3", 3)]
  /\ distinct (map keyOf [("Length", "42", 42); ("N", "3", 3)]) = true
  /\ (List.length [("Length", "42", 42); ("N", "3", 3)] < 3)%nat
  /\ parseDict 3 ("<<" ++ dictText [("Length", "42", 42); ("N", "3", 3)]
                  ++ ">>" ++ "stream")
     = Some (Ok [("Length", PDFInteger 42); ("N", PDFInteger 3)], "stream").
Proof.
  assert (E : Forall entryOk [("Length", "42", 42); ("N", "3", 3)]).
  { repeat constructor. }
  assert (L : (List.length [("Length", "42", 42); ("N", "3", 3)] < 3)%nat).
  { apply Nat.ltb_lt. reflexivity. }
  split; [exact E|]. split; [reflexivity|]. split; [exact L|].
  exact (proj1 (parseDict_of_integers
                  3 [("Length", "42", 42); ("N", "3", 3)] "stream"
                  E eq_refl L)).
Defined.

(** X18.  A hex literal ends at the first [>]: with a body of at least one
    character that holds no [>], [parseHexLiteral] decodes exactly the body
    and leaves the buffer right behind that [>]; a body that does not decode
    gives [errHexLiteralCorrupt]. *)
Theorem parseHexLiteral_ends_at_first_closer
  (body rest : string)
  (Hne : isEmpty body = false)
  (Hno : mem ">" body = false) :
  parseHexLiteral ("<" ++ body ++ ">" ++ rest)
  = match hexString body with
    | Some hexStr => (Ok (PDFHexLiteral hexStr), rest)
    | None => (Err errHexLiteralCorrupt, "<" ++ body ++ ">" ++ rest)
    end.
Proof.
  unfold parseHexLiteral.
  assert (L : (len ("<" ++ body ++ ">" ++ rest) <? 3)%nat = false).
  { apply Nat.ltb_ge. destruct body as [|c b]; [discriminate|].
    rewrite !len_app. unfold len. cbn [String.length]. lia. }
  rewrite L, (forwardParseBuf_app "<").
  change (isEmpty ("<" ++ body ++ ">" ++ rest)) with false.
  change (HasPrefix ("<" ++ body ++ ">" ++ rest) "<") with true.
  cbv iota. cbn [negb orb]. cbv iota zeta.
  rewrite (Index_skip body rest ">" "" Hno).
  rewrite take_app, drop_app.
  destruct (hexString body); [|reflexivity].
  now rewrite (forwardParseBuf_app ">").
Qed.

Lemma parseHexLiteral_ends_at_first_closer_witness :
  isEmpty "4E6F" = false /\ mem ">" "4E6F" = false
  /\ parseHexLiteral ("<" ++ "4E6F" ++ ">" ++ " >> endobj")
     = (Ok (PDFHexLiteral "No"), " >> endobj").
Proof.
  do 2 (split; [reflexivity|]).
  exact (parseHexLiteral_ends_at_first_closer "4E6F" " >> endobj"
           eq_refl eq_refl).
Defined.
